(** * Queue tree and partition context of the scheduler core

    A shallow embedding of the queue structure ([cache.QueueInfo]) and of
    the partition context ([scheduler.PartitionContext]), with the
    properties of their capacity accounting, access checks, queue lookup
    and reservation counters.

    Go objects that are reached through pointers and mutated in place live
    in an explicit store: queues are addressed by handles ([qid]) in a
    [gmap], a pointer is an [option] ([None] is [nil]), and every method
    takes the store and returns the updated one.  Locks are not modelled:
    every method is embedded as it runs when it holds its locks alone. *)

From Stdlib Require Import ZArith Ascii String List Permutation.
From stdpp Require Import gmap strings list fin_maps.

Local Open Scope string_scope.
Local Open Scope Z_scope.

(** ** Resource vectors *)

Module resources.

(** Modelled from the spec: package [pkg/common/resources] is not part of
    the sources.  "A mapping from resource-type name to a non-negative
    integer quantity.  Missing key = 0 ... All arithmetic is pointwise on
    named dimensions."  A [*Resource] is an [option]; a nil pointer has no
    key set and is read as the zero vector. *)
Abbreviation Resource := (gmap string Z).

(** Modelled from the spec: [NewResource] gives a vector without keys. *)
Definition NewResource : Resource := ∅.

(** Modelled from the spec: the quantity of a resource type, "missing key
    = 0". *)
Definition quantity (r : option Resource) (k : string) : Z :=
  match r with
  | Some m => default 0 (m !! k)
  | None => 0
  end.

(** The vector behind a pointer, the zero vector behind nil. *)
Definition deref (r : option Resource) : Resource := default ∅ r.

(** Modelled from the spec: [Clone] copies the vector; values are
    immutable here, so the copy is the value itself (nil stays nil). *)
Definition Clone (r : option Resource) : option Resource := r.

(** Modelled from the spec: pointwise addition, a missing key counts 0. *)
Definition Add (left right : option Resource) : Resource :=
  union_with (fun a b => Some (a + b)) (deref left) (deref right).

(** Modelled from the spec: pointwise subtraction, a missing key counts 0. *)
Definition Sub (left right : option Resource) : Resource :=
  merge (fun a b =>
           match a, b with
           | None, None => None
           | _, _ => Some (default 0 a - default 0 b)
           end) (deref left) (deref right).

(** Modelled from the spec: [AddTo] and [SubFrom] are [Add] and [Sub] in
    place, on the vector the receiver points to; a nil receiver has no
    vector to update. *)
Definition AddTo (r delta : option Resource) : option Resource :=
  match r with
  | None => None
  | Some _ => Some (Add r delta)
  end.

(** Modelled from the spec: see [AddTo]. *)
Definition SubFrom (r delta : option Resource) : option Resource :=
  match r with
  | None => None
  | Some _ => Some (Sub r delta)
  end.

(** Modelled from the spec: [fitIn(big, small)] = for all k,
    big[k] >= small[k]. *)
Definition FitIn (larger smaller : option Resource) : bool :=
  forallb (fun k => quantity smaller k <=? quantity larger k)
          (elements (dom (deref larger) ∪ dom (deref smaller))).

(** Modelled from the spec: two vectors are the same resource when they
    agree on every resource type ("missing key = 0"). *)
Definition Equals (a b : option Resource) : Prop :=
  forall k, quantity a k = quantity b k.

End resources.

Import resources.

(** ** Strings (package strings of the Go library) *)

Module strings.

(** [strings.ToLower] on the ASCII letters; queue names are ASCII
    ([A-Za-z0-9_-]), other bytes are kept. *)
Definition lower (c : ascii) : ascii :=
  let n := nat_of_ascii c in
  if (Nat.leb 65 n && Nat.leb n 90)%bool then ascii_of_nat (n + 32) else c.

Fixpoint ToLower (s : string) : string :=
  match s with
  | EmptyString => EmptyString
  | String c s' => String (lower c) (ToLower s')
  end.

(** [strings.Split(s, sep)] for a separator of one byte: the result is
    never empty, [Split "" sep] is [[""]]. *)
Fixpoint Split (s : string) (sep : ascii) : list string :=
  match s with
  | EmptyString => [EmptyString]
  | String c s' =>
    if Ascii.eqb c sep then EmptyString :: Split s' sep
    else match Split s' sep with
         | x :: xs => String c x :: xs
         | [] => [String c EmptyString]
         end
  end.

Definition HasPrefix (s p : string) : bool := String.prefix p s.

Fixpoint Contains (s : string) (sep : ascii) : bool :=
  match s with
  | EmptyString => false
  | String c s' => Ascii.eqb c sep || Contains s' sep
  end.

(** [strings.LastIndex(s, sep)]: [None] stands for -1. *)
Fixpoint LastIndex (s : string) (sep : ascii) : option nat :=
  match s with
  | EmptyString => None
  | String c s' =>
    match LastIndex s' sep with
    | Some i => Some (S i)
    | None => if Ascii.eqb c sep then Some O else None
    end
  end.

End strings.

(** ** Shared declarations *)

(** Handle of a queue object in the store: a [*QueueInfo]. *)
Abbreviation qid := positive.

(** States of the scheduling-object state machine. *)
Inductive ObjectState := New | Active | Draining | Stopped.

#[global] Instance ObjectState_eq_dec : EqDecision ObjectState.
Proof. solve_decision. Defined.

(** Modelled from the spec: [newObjectState] is not part of the sources;
    the state an object starts in is [New]. *)
Definition newObjectState : ObjectState := New.

Module configs.

(** [DOT = "."], the separator of a queue path. *)
Definition DOT : ascii := "."%char.

(** Modelled from the spec: [configs.RootQueue] is not part of the sources;
    a queue path starts at [root]. *)
Definition RootQueue : string := "root".

(** Modelled from the spec: [configs.QueueNameRegExp] is not part of the
    sources.  A name "must match [A-Za-z0-9_-]{1,64}". *)
Definition nameChar (c : ascii) : bool :=
  let n := nat_of_ascii c in
  ((Nat.leb 65 n && Nat.leb n 90) || (Nat.leb 97 n && Nat.leb n 122)
   || (Nat.leb 48 n && Nat.leb n 57) || Nat.eqb n 95 || Nat.eqb n 45)%bool.

Definition QueueNameRegExp (name : string) : bool :=
  (Nat.leb 1 (String.length name) && Nat.leb (String.length name) 64
   && forallb nameChar (list_ascii_of_string name))%bool.

End configs.

Module security.

(** Modelled from the spec: package [pkg/common/security] is not part of
    the sources.  "An ACL string is either [*] (allow all), empty (deny
    all), or [users groups] ... checkAccess(user, groups) is true if [*],
    if the user is listed, or if any of the user's groups is listed." *)
Record UserGroup := mkUserGroup {
  User : string;
  Groups : list string
}.

(** Modelled from the spec: an ACL allows all, or lists users and
    groups. *)
Record ACL := mkACL {
  allAllowed : bool;
  users : list string;
  groups : list string
}.

(** Modelled from the spec: "true if [*], if the user is listed, or if any
    of the user's groups is listed". *)
Definition CheckAccess (acl : ACL) (u : UserGroup) : bool :=
  allAllowed acl
  || bool_decide (User u ∈ users acl)
  || existsb (fun g => bool_decide (g ∈ groups acl)) (Groups u).

End security.

(** What a [fmt.Errorf] reports; the payload of a queue error is the queue
    the message names, of a partition error the identifier it names. *)
Inductive error :=
  | ErrOverMaximum (queue : qid)
  | ErrReleaseTooLarge (queue : qid)
  | ErrAddChildToLeaf (queue : qid)
  | ErrAddChildDraining (queue : qid)
  | ErrInvalidQueueName (name : string)
  | ErrQueueCreationFailed (cause : error)
  | ErrPartitionStopped (id : string)
  | ErrApplicationExists (appID : string)
  | ErrPlacementFailed (appID : string)
  | ErrPlacementRejected (appID : string)
  | ErrNoPlacementRules (appID queueName : string)
  | ErrCreateQueueFailed (queueName appID : string)
  | ErrQueueNotFound (queueName appID : string)
  | ErrIllegalQueueName (name : string)
  | ErrSubmitDenied (current name : string)
  | ErrParentIsLeaf (name current : string)
  | ErrNilNode
  | ErrNodeExists (nodeID : string)
  | ErrMissingUUID (allocKey appID : string)
  | ErrNodeNotFound (nodeID : string)
  | ErrApplicationNotFound (appID : string)
  | ErrNodeNotSchedulable (nodeID : string)
  | ErrCannotAllocate (appID : string) (cause : error).

(** ** The queue structure (package cache) *)

Module cache.

Import resources security.

(** [type QueueInfo struct].  [stateTime] and the lock are left out.  The
    last two fields are not in [QueueInfo]: they belong to the queue
    object the partition works on ([objects.Queue]).
    Modelled from the spec: [objects.Queue] is not part of the sources;
    it is this structure together with the applications linked to the
    queue ("links app and queue") and its "reservation count". *)
Record QueueInfo := mkQueueInfo {
  Name : string;
  Parent : option qid;
  Properties : gmap string string;
  adminACL : ACL;
  submitACL : ACL;
  maxResource : option Resource;
  guaranteedResource : option Resource;
  allocatedResource : option Resource;
  isLeaf : bool;
  isManaged : bool;
  stateMachine : ObjectState;
  children : gmap string qid;
  applications : gset string;
  reservations : Z
}.

(** The store of queue objects. *)
Abbreviation heap := (gmap qid QueueInfo).

Definition set_allocatedResource (r : option Resource) (qi : QueueInfo) : QueueInfo :=
  mkQueueInfo (Name qi) (Parent qi) (Properties qi) (adminACL qi) (submitACL qi)
              (maxResource qi) (guaranteedResource qi) r
              (isLeaf qi) (isManaged qi) (stateMachine qi) (children qi)
              (applications qi) (reservations qi).

Definition set_maxResource (r : option Resource) (qi : QueueInfo) : QueueInfo :=
  mkQueueInfo (Name qi) (Parent qi) (Properties qi) (adminACL qi) (submitACL qi)
              r (guaranteedResource qi) (allocatedResource qi)
              (isLeaf qi) (isManaged qi) (stateMachine qi) (children qi)
              (applications qi) (reservations qi).

Definition set_children (c : gmap string qid) (qi : QueueInfo) : QueueInfo :=
  mkQueueInfo (Name qi) (Parent qi) (Properties qi) (adminACL qi) (submitACL qi)
              (maxResource qi) (guaranteedResource qi) (allocatedResource qi)
              (isLeaf qi) (isManaged qi) (stateMachine qi) c
              (applications qi) (reservations qi).

Definition set_applications (a : gset string) (qi : QueueInfo) : QueueInfo :=
  mkQueueInfo (Name qi) (Parent qi) (Properties qi) (adminACL qi) (submitACL qi)
              (maxResource qi) (guaranteedResource qi) (allocatedResource qi)
              (isLeaf qi) (isManaged qi) (stateMachine qi) (children qi)
              a (reservations qi).

Definition set_reservations (n : Z) (qi : QueueInfo) : QueueInfo :=
  mkQueueInfo (Name qi) (Parent qi) (Properties qi) (adminACL qi) (submitACL qi)
              (maxResource qi) (guaranteedResource qi) (allocatedResource qi)
              (isLeaf qi) (isManaged qi) (stateMachine qi) (children qi)
              (applications qi) n.

(** A method run on the store: [None] when the run does not complete (a
    nil or dangling queue pointer is dereferenced, or the recursion
    budget [fuel] is used up), else the store it leaves and what it
    returns. *)
Abbreviation run A := (option (heap * A)%type).

(** [q] and its ancestors, from [q] up to the root (the queue with a nil
    parent). *)
Inductive path_to_root (h : heap) : qid -> list qid -> Prop :=
  | path_root q qi :
      h !! q = Some qi -> Parent qi = None -> path_to_root h q [q]
  | path_step q qi p l :
      h !! q = Some qi -> Parent qi = Some p -> path_to_root h p l ->
      path_to_root h q (q :: l).

Definition IsDraining (qi : QueueInfo) : bool :=
  bool_decide (stateMachine qi = Draining).

Definition IsRunning (qi : QueueInfo) : bool :=
  bool_decide (stateMachine qi = Active).

Definition IsStopped (qi : QueueInfo) : bool :=
  bool_decide (stateMachine qi = Stopped).

Definition IsLeafQueue (qi : QueueInfo) : bool := isLeaf qi.

(** [func (qi *QueueInfo) setMaxResource(max *resources.Resource)] *)
Definition setMaxResource (h : heap) (q : qid) (max : option Resource) : option heap :=
  match h !! q with
  | None => None
  | Some qi =>
    if bool_decide (Parent qi <> None) then Some h
    else Some (<[q := set_maxResource (Clone max) qi]> h)
  end.

(** [func (qi *QueueInfo) addChildQueue(child *QueueInfo) error] *)
Definition addChildQueue (h : heap) (q child : qid) : run (option error) :=
  match h !! q with
  | None => None
  | Some qi =>
    if isLeaf qi then Some (h, Some (ErrAddChildToLeaf q))
    else if IsDraining qi then Some (h, Some (ErrAddChildDraining q))
    else
      match h !! child with
      | None => None
      | Some ci =>
        Some (<[q := set_children (<[Name ci := child]> (children qi)) qi]> h, None)
      end
  end.

(** [func (qi *QueueInfo) removeChildQueue(name string)] *)
Definition removeChildQueue (h : heap) (q : qid) (name : string) : option heap :=
  match h !! q with
  | None => None
  | Some qi =>
    Some (<[q := set_children (delete (strings.ToLower name) (children qi)) qi]> h)
  end.

(** [func (qi *QueueInfo) IncAllocatedResource(alloc, nodeReported) error] *)
Fixpoint IncAllocatedResource (fuel : nat) (h : heap) (q : qid)
    (alloc : option Resource) (nodeReported : bool) : run (option error) :=
  match fuel with
  | O => None
  | S fuel' =>
    match h !! q with
    | None => None
    | Some qi =>
      let newAllocation := Add (allocatedResource qi) alloc in
      if negb nodeReported
         && (bool_decide (maxResource qi <> None)
             && negb (FitIn (maxResource qi) (Some newAllocation)))
      then Some (h, Some (ErrOverMaximum q))
      else
        match Parent qi with
        | Some p =>
          match IncAllocatedResource fuel' h p alloc nodeReported with
          | None => None
          | Some (h', Some err) => Some (h', Some err)
          | Some (h', None) =>
            Some (alter (set_allocatedResource (Some newAllocation)) q h', None)
          end
        | None =>
          Some (alter (set_allocatedResource (Some newAllocation)) q h, None)
        end
    end
  end.

(** [func (qi *QueueInfo) decAllocatedResource(alloc) error] *)
Fixpoint decAllocatedResource (fuel : nat) (h : heap) (q : qid)
    (alloc : option Resource) : run (option error) :=
  match fuel with
  | O => None
  | S fuel' =>
    match h !! q with
    | None => None
    | Some qi =>
      if bool_decide (alloc <> None) && negb (FitIn (allocatedResource qi) alloc)
      then Some (h, Some (ErrReleaseTooLarge q))
      else
        let release := fun qi' =>
          set_allocatedResource (Some (Sub (allocatedResource qi') alloc)) qi' in
        match Parent qi with
        | Some p =>
          match decAllocatedResource fuel' h p alloc with
          | None => None
          | Some (h', Some err) => Some (h', Some err)
          | Some (h', None) => Some (alter release q h', None)
          end
        | None => Some (alter release q h, None)
        end
    end
  end.

(** [func (qi *QueueInfo) CheckSubmitAccess(user security.UserGroup) bool] *)
Fixpoint CheckSubmitAccess (fuel : nat) (h : heap) (q : qid) (user : UserGroup)
    : option bool :=
  match fuel with
  | O => None
  | S fuel' =>
    match h !! q with
    | None => None
    | Some qi =>
      let allow := CheckAccess (submitACL qi) user || CheckAccess (adminACL qi) user in
      match Parent qi with
      | Some p => if negb allow then CheckSubmitAccess fuel' h p user else Some allow
      | None => Some allow
      end
    end
  end.

(** [func (qi *QueueInfo) CheckAdminAccess(user security.UserGroup) bool] *)
Fixpoint CheckAdminAccess (fuel : nat) (h : heap) (q : qid) (user : UserGroup)
    : option bool :=
  match fuel with
  | O => None
  | S fuel' =>
    match h !! q with
    | None => None
    | Some qi =>
      let allow := CheckAccess (adminACL qi) user in
      match Parent qi with
      | Some p => if negb allow then CheckAdminAccess fuel' h p user else Some allow
      | None => Some allow
      end
    end
  end.

(** [func NewUnmanagedQueue(name string, leaf bool, parent *QueueInfo)];
    the partition calls it as [objects.NewDynamicQueue].  The new object
    takes a handle that is not in use. *)
Definition NewUnmanagedQueue (h : heap) (name : string) (leaf : bool)
    (parent : option qid) : run (error + qid) :=
  if negb (configs.QueueNameRegExp name) then Some (h, inl (ErrInvalidQueueName name))
  else
    let q := fresh (dom h) in
    let qi := mkQueueInfo (strings.ToLower name) parent ∅
                          (mkACL false [] []) (mkACL false [] [])
                          None None (Some NewResource)
                          leaf false newObjectState ∅ ∅ 0 in
    let h1 := <[q := qi]> h in
    match parent with
    | Some p =>
      match addChildQueue h1 p q with
      | None => None
      | Some (_, Some err) => Some (h, inl (ErrQueueCreationFailed err))
      | Some (h2, None) => Some (h2, inr q)
      end
    | None => Some (h1, inr q)
    end.

(** Modelled from the spec: [GetChildQueue] of [objects.Queue] is not
    part of the sources; a queue has a "mapping of children by name",
    and a name that is not a key gives nil. *)
Definition GetChildQueue (h : heap) (q : qid) (name : string) : option qid :=
  match h !! q with
  | Some qi => children qi !! name
  | None => None
  end.

(** Modelled from the spec: [AddApplication] of [objects.Queue] is not
    part of the sources; it "links app and queue". *)
Definition AddApplication (h : heap) (q : qid) (appID : string) : option heap :=
  match h !! q with
  | None => None
  | Some qi => Some (<[q := set_applications ({[appID]} ∪ applications qi) qi]> h)
  end.

(** Modelled from the spec: [Reserve] and [UnReserve] of [objects.Queue]
    are not part of the sources; they keep the "reservation count" of
    the queue. *)
Definition Reserve (h : heap) (q : qid) (appID : string) : option heap :=
  match h !! q with
  | None => None
  | Some qi => Some (<[q := set_reservations (reservations qi + 1) qi]> h)
  end.

Definition UnReserve (h : heap) (q : qid) (appID : string) (releases : Z) : option heap :=
  match h !! q with
  | None => None
  | Some qi => Some (<[q := set_reservations (reservations qi - releases) qi]> h)
  end.

End cache.

(** ** Applications, nodes and allocations (package objects) *)

Module objects.

Import resources security.

(** Modelled from the spec: package [pkg/scheduler/objects] is not part
    of the sources.  Its types are modelled from the data model of the
    spec, with the fields and methods the partition uses.  The result
    of an allocation is one of "Allocated, AllocatedReserved, Reserved,
    Unreserved". *)
Inductive allocationResult := Allocated | AllocatedReserved | Reserved | Unreserved.

Module AllocationAsk.
(** Modelled from the spec: "A pending ask has: key, requested resource
    vector, maxAllocations remaining, priority". *)
Record t := mk {
  AllocationKey : string;
  ApplicationID : string;
  QueueName : string;
  AllocatedResource : option Resource;
  maxAllocations : Z;
  priority : Z
}.
End AllocationAsk.

Module Allocation.
(** Modelled from the spec: "UUID, allocationKey, applicationID,
    queueName, nodeID, reservedNodeID, allocatedResource, Result". *)
Record t := mk {
  Ask : option AllocationAsk.t;
  UUID : string;
  AllocationKey : string;
  ApplicationID : string;
  QueueName : string;
  NodeID : string;
  ReservedNodeID : string;
  AllocatedResource : option Resource;
  Result : allocationResult
}.
End Allocation.

Module Application.
(** Modelled from the spec: "Holds user/group, pending asks (map by
    allocationKey), live allocations (map by UUID), reservations (set
    of node IDs)"; [queue] is the link to the queue of the
    application, nil until the application is placed. *)
Record t := mk {
  ApplicationID : string;
  QueueName : string;
  user : UserGroup;
  queue : option qid;
  requests : gmap string AllocationAsk.t;
  allocations : gmap string Allocation.t;
  reservations : gset string
}.

(** Modelled from the spec: the getters and setters of the application. *)
Definition GetUser (app : t) : UserGroup := user app.

(** Modelled from the spec: the queue the application is linked to. *)
Definition GetQueue (app : t) : option qid := queue app.

(** Modelled from the spec: links the application to its queue. *)
Definition SetQueue (app : t) (q : option qid) : t :=
  mk (ApplicationID app) (QueueName app) (user app) q
     (requests app) (allocations app) (reservations app).

(** Modelled from the spec: the queue name placement gives to the
    application. *)
Definition SetQueueName (app : t) (name : string) : t :=
  mk (ApplicationID app) name (user app) (queue app)
     (requests app) (allocations app) (reservations app).

(** Modelled from the spec: live allocations are a "map by UUID". *)
Definition AddAllocation (app : t) (alloc : Allocation.t) : t :=
  mk (ApplicationID app) (QueueName app) (user app) (queue app)
     (requests app) (<[Allocation.UUID alloc := alloc]> (allocations app))
     (reservations app).

(** Modelled from the spec: the allocation under [uuid] is taken out
    of the map and returned, nil when there is none. *)
Definition RemoveAllocation (app : t) (uuid : string) : t * option Allocation.t :=
  (mk (ApplicationID app) (QueueName app) (user app) (queue app)
      (requests app) (delete uuid (allocations app)) (reservations app),
   allocations app !! uuid).

(** Modelled from the spec: the ask of a recovered allocation joins the
    pending asks, "map by allocationKey"; a nil ask adds nothing. *)
Definition RecoverAllocationAsk (app : t) (ask : option AllocationAsk.t) : t :=
  match ask with
  | None => app
  | Some a =>
    mk (ApplicationID app) (QueueName app) (user app) (queue app)
       (<[AllocationAsk.AllocationKey a := a]> (requests app))
       (allocations app) (reservations app)
  end.

(** Modelled from the spec: the reservations of an application are a
    "set of node IDs". *)
Definition IsReservedOnNode (app : t) (nodeID : string) : bool :=
  bool_decide (nodeID ∈ reservations app).

(** The application with other reservations. *)
Definition set_reservations (app : t) (r : gset string) : t :=
  mk (ApplicationID app) (QueueName app) (user app) (queue app)
     (requests app) (allocations app) r.
End Application.

Module Node.
(** Modelled from the spec: "total capacity, occupied, ... allocation
    list (by UUID), reservation slots (app -> ask), schedulable
    flag". *)
Record t := mk {
  NodeID : string;
  totalResource : option Resource;
  occupiedResource : option Resource;
  allocatedResource : option Resource;
  allocations : gmap string Allocation.t;
  reservations : gmap string string;
  schedulable : bool
}.

(** Modelled from the spec: the "total capacity" of the node. *)
Definition GetCapacity (n : t) : option Resource := totalResource n.

(** Modelled from the spec: the "schedulable flag" of the node. *)
Definition IsSchedulable (n : t) : bool := schedulable n.

(** Modelled from the spec: "addAllocation: subtracts from available;
    idempotent guard against duplicate UUIDs"; available is capacity
    minus occupied minus allocated. *)
Definition AddAllocation (n : t) (alloc : Allocation.t) : t :=
  match allocations n !! Allocation.UUID alloc with
  | Some _ => n
  | None =>
    mk (NodeID n) (totalResource n) (occupiedResource n)
       (Some (Add (allocatedResource n) (Allocation.AllocatedResource alloc)))
       (<[Allocation.UUID alloc := alloc]> (allocations n))
       (reservations n) (schedulable n)
  end.

(** Modelled from the spec: the "allocation list (by UUID)" as a
    slice; the order of a Go map iteration is not fixed, the model
    takes the order of the keys. *)
Definition GetAllAllocations (n : t) : list Allocation.t :=
  (map_to_list (allocations n)).*2.

(** The node with other reservation slots. *)
Definition set_reservations (n : t) (r : gmap string string) : t :=
  mk (NodeID n) (totalResource n) (occupiedResource n) (allocatedResource n)
     (allocations n) r (schedulable n).
End Node.

(** Modelled from the spec: "reserve(node, ask): fails if app already
    reserved on that node; records in both app and node reservation
    tables"; on the node "at most one reservation per ask slot per node;
    fails if slot busy".  [None] is the error. *)
Definition Reserve (app : Application.t) (node : Node.t) (ask : AllocationAsk.t)
    : option (Application.t * Node.t) :=
  if Application.IsReservedOnNode app (Node.NodeID node) then None
  else
    match Node.reservations node !! Application.ApplicationID app with
    | Some _ => None
    | None =>
      Some (Application.set_reservations app
              ({[Node.NodeID node]} ∪ Application.reservations app),
            Node.set_reservations node
              (<[Application.ApplicationID app := AllocationAsk.AllocationKey ask]>
                 (Node.reservations node)))
    end.

(** Modelled from the spec: "unReserve(node, ask): idempotent; returns
    number of reservations actually removed".  The error it returns
    with the number is always nil. *)
Definition UnReserve (app : Application.t) (node : Node.t) (ask : AllocationAsk.t)
    : Application.t * Node.t * Z * option error :=
  if Application.IsReservedOnNode app (Node.NodeID node) then
    (Application.set_reservations app
       (Application.reservations app ∖ {[Node.NodeID node]}),
     Node.set_reservations node
       (delete (Application.ApplicationID app) (Node.reservations node)),
     1, None)
  else (app, node, 0, None).

(** Modelled from the spec: "unReserveApps(): during node removal,
    returns the list of (appID, askCount) tuples to be credited back to
    the partition"; every slot of the node holds one ask of its
    application, and the application drops its reservation of the
    node.  The applications are those of the partition. *)
Definition UnReserveApps (node : Node.t) (apps : gmap string Application.t)
    : Node.t * gmap string Application.t * list string * list Z :=
  let keys := (map_to_list (Node.reservations node)).*1 in
  let release := fun app =>
    Application.set_reservations app
      (Application.reservations app ∖ {[Node.NodeID node]}) in
  (Node.set_reservations node ∅,
   foldr (fun k m => alter release k m) apps keys,
   keys, (fun _ => 1) <$> keys).

End objects.

(** ** Placement (package placement) *)

Module placement.

(** Modelled from the spec: package [pkg/scheduler/placement] is not part
    of the sources.  The manager "owns an ordered list of rules; ...
    first rule yielding a non-empty queue name wins"; "if rules are
    empty, placement is disabled".  What the rules compute is left open:
    [rules] is any function from the queue structure and the application
    to an error or the queue name the application is given. *)
Record AppPlacementManager := mk {
  initialised : bool;
  rules : cache.heap -> qid -> objects.Application.t -> error + string
}.

(** Modelled from the spec: placement is in use when there are rules. *)
Definition IsInitialised (m : AppPlacementManager) : bool := initialised m.

(** Modelled from the spec: the rules give the application its queue
    name, or fail. *)
Definition PlaceApplication (m : AppPlacementManager) (h : cache.heap) (root : qid)
    (app : objects.Application.t) : objects.Application.t * option error :=
  match rules m h root app with
  | inl err => (app, Some err)
  | inr name => (objects.Application.SetQueueName app name, None)
  end.

End placement.

(** ** The partition context (package scheduler) *)

Module scheduler.

Import resources security cache.
Import objects.

(** Go's [int], 64 bits wide: arithmetic wraps around. *)
Definition int (z : Z) : Z := (z + 2 ^ 63) mod 2 ^ 64 - 2 ^ 63.

(** [type PartitionContext struct].  [queues] is the store of the queue
    objects that [root] and the applications point into.  The fields for
    preemption, the user cache, the node sorting policy, [stateTime] and
    the lock are left out. *)
Record PartitionContext := mkPartitionContext {
  RmID : string;
  Name : string;
  root : qid;
  queues : heap;
  applications : gmap string Application.t;
  reservedApps : gmap string Z;
  nodes : gmap string Node.t;
  allocations : gmap string Allocation.t;
  placementManager : placement.AppPlacementManager;
  stateMachine : ObjectState;
  totalPartitionResource : option Resource
}.

Definition set_queues (h : heap) (pc : PartitionContext) : PartitionContext :=
  mkPartitionContext (RmID pc) (Name pc) (root pc) h (applications pc)
    (reservedApps pc) (nodes pc) (allocations pc) (placementManager pc)
    (stateMachine pc) (totalPartitionResource pc).

Definition set_applications (a : gmap string Application.t) (pc : PartitionContext)
    : PartitionContext :=
  mkPartitionContext (RmID pc) (Name pc) (root pc) (queues pc) a
    (reservedApps pc) (nodes pc) (allocations pc) (placementManager pc)
    (stateMachine pc) (totalPartitionResource pc).

Definition set_reservedApps (r : gmap string Z) (pc : PartitionContext)
    : PartitionContext :=
  mkPartitionContext (RmID pc) (Name pc) (root pc) (queues pc) (applications pc)
    r (nodes pc) (allocations pc) (placementManager pc)
    (stateMachine pc) (totalPartitionResource pc).

Definition set_nodes (n : gmap string Node.t) (pc : PartitionContext)
    : PartitionContext :=
  mkPartitionContext (RmID pc) (Name pc) (root pc) (queues pc) (applications pc)
    (reservedApps pc) n (allocations pc) (placementManager pc)
    (stateMachine pc) (totalPartitionResource pc).

Definition set_allocations (a : gmap string Allocation.t) (pc : PartitionContext)
    : PartitionContext :=
  mkPartitionContext (RmID pc) (Name pc) (root pc) (queues pc) (applications pc)
    (reservedApps pc) (nodes pc) a (placementManager pc)
    (stateMachine pc) (totalPartitionResource pc).

Definition set_totalPartitionResource (r : option Resource) (pc : PartitionContext)
    : PartitionContext :=
  mkPartitionContext (RmID pc) (Name pc) (root pc) (queues pc) (applications pc)
    (reservedApps pc) (nodes pc) (allocations pc) (placementManager pc)
    (stateMachine pc) r.

(** A method run on the partition: [None] when the run does not
    complete (see [cache.run]). *)
Abbreviation prun A := (option (PartitionContext * A)%type).

(** The recursion budget of a walk up the queues: a walk visits a queue
    once, so one more than the number of queues is never used up. *)
Definition budget (h : heap) : nat := S (size h).

#[global] Arguments budget : simpl never.

Definition isDraining (pc : PartitionContext) : bool :=
  bool_decide (stateMachine pc = Draining).

Definition isRunning (pc : PartitionContext) : bool :=
  bool_decide (stateMachine pc = Active).

Definition isStopped (pc : PartitionContext) : bool :=
  bool_decide (stateMachine pc = Stopped).

(** The loop of [getQueue]: walk over the parts going down. *)
Fixpoint walk (h : heap) (queue : qid) (part : list string) : option qid :=
  match part with
  | [] => Some queue
  | p :: rest =>
    match GetChildQueue h queue p with
    | None => None
    | Some child => walk h child rest
    end
  end.

(** [func (pc *PartitionContext) getQueue(name string) *objects.Queue] *)
Definition getQueue (pc : PartitionContext) (name : string) : option qid :=
  let queue := root pc in
  let part := strings.Split (strings.ToLower name) configs.DOT in
  match part with
  | [] => None
  | first :: rest =>
    if bool_decide (first <> configs.RootQueue) then None
    else walk (queues pc) queue rest
  end.

(** [func (pc *PartitionContext) GetQueue(name string) *objects.Queue] *)
Definition GetQueue (pc : PartitionContext) (name : string) : option qid :=
  getQueue pc name.

(** First loop of [createQueue]: strip the last part of the name until
    the queue exists.  [None]: the name has no dot left and the slice
    [current[0:-1]] is out of range. *)
Fixpoint findExisting (fuel : nat) (pc : PartitionContext) (current : string)
    (toCreate : list string) : option (qid * string * list string) :=
  match getQueue pc current with
  | Some queue => Some (queue, current, toCreate)
  | None =>
    match fuel with
    | O => None
    | S fuel' =>
      match strings.LastIndex current configs.DOT with
      | None => None
      | Some i =>
        findExisting fuel' pc (substring 0 i current)
          (toCreate ++ [substring (S i) (String.length current - S i) current])
      end
    end
  end.

(** Second loop of [createQueue], over [toCreate] from its last entry
    down to entry 0, which is the leaf. *)
Fixpoint createAll (h : heap) (names : list string) (queue : qid) : run (error + qid) :=
  match names with
  | [] => Some (h, inr queue)
  | name :: rest =>
    match NewUnmanagedQueue h name (bool_decide (rest = [])) (Some queue) with
    | None => None
    | Some (h', inl err) => Some (h', inl err)
    | Some (h', inr q) => createAll h' rest q
    end
  end.

(** [func (pc *PartitionContext) createQueue(name, user)], which returns
    the queue or an error. *)
Definition createQueue (pc : PartitionContext) (name : string) (user : UserGroup)
    : prun (error + qid) :=
  if negb (strings.HasPrefix name configs.RootQueue)
     || negb (strings.Contains name configs.DOT)
  then Some (pc, inl (ErrIllegalQueueName name))
  else
    match findExisting (String.length name) pc name [] with
    | None => None
    | Some (queue, current, toCreate) =>
      match CheckSubmitAccess (budget (queues pc)) (queues pc) queue user with
      | None => None
      | Some false => Some (pc, inl (ErrSubmitDenied current name))
      | Some true =>
        match queues pc !! queue with
        | None => None
        | Some qi =>
          if IsLeafQueue qi then Some (pc, inl (ErrParentIsLeaf name current))
          else
            match createAll (queues pc) (rev toCreate) queue with
            | None => None
            | Some (h', r) => Some (set_queues h' pc, r)
            end
        end
      end
    end.

(** The placement step of [AddApplication]: the application with the
    queue name it is given, or the error. *)
Definition placeApplication (pc : PartitionContext) (app : Application.t)
    : Application.t + error :=
  let appID := Application.ApplicationID app in
  if placement.IsInitialised (placementManager pc) then
    match placement.PlaceApplication (placementManager pc) (queues pc) (root pc) app with
    | (_, Some err) => inr (ErrPlacementFailed appID)
    | (app', None) =>
      if bool_decide (Application.QueueName app' = "") then inr (ErrPlacementRejected appID)
      else inl app'
    end
  else inl app.

(** The queue lookup of [AddApplication]: the queue of the name, created
    on the way when placement rules are in use. *)
Definition resolveQueue (pc : PartitionContext) (app : Application.t)
    : prun (error + qid) :=
  let appID := Application.ApplicationID app in
  let queueName := Application.QueueName app in
  match getQueue pc queueName with
  | Some queue => Some (pc, inr queue)
  | None =>
    if negb (placement.IsInitialised (placementManager pc))
    then Some (pc, inl (ErrNoPlacementRules appID queueName))
    else
      match createQueue pc queueName (Application.GetUser app) with
      | None => None
      | Some (pc', inl _) => Some (pc', inl (ErrCreateQueueFailed queueName appID))
      | Some (pc', inr queue) => Some (pc', inr queue)
      end
  end.

(** [func (pc *PartitionContext) AddApplication(app *objects.Application) error] *)
Definition AddApplication (pc : PartitionContext) (app : Application.t)
    : prun (option error) :=
  if isDraining pc || isStopped pc
  then Some (pc, Some (ErrPartitionStopped (Application.ApplicationID app)))
  else
    let appID := Application.ApplicationID app in
    if bool_decide (applications pc !! appID <> None)
    then Some (pc, Some (ErrApplicationExists appID))
    else
      match placeApplication pc app with
      | inr err => Some (pc, Some err)
      | inl app1 =>
        match resolveQueue pc app1 with
        | None => None
        | Some (pc1, inl err) => Some (pc1, Some err)
        | Some (pc1, inr queue) =>
          match queues pc1 !! queue with
          | None => None
          | Some qi =>
            let denied := Some (pc1, Some (ErrQueueNotFound
                                             (Application.QueueName app1) appID)) in
            if negb (IsLeafQueue qi) then denied
            else
              match CheckSubmitAccess (budget (queues pc1)) (queues pc1) queue
                                      (Application.GetUser app1) with
              | None => None
              | Some false => denied
              | Some true =>
                let app2 := Application.SetQueue app1 (Some queue) in
                match cache.AddApplication (queues pc1) queue appID with
                | None => None
                | Some h' =>
                  Some (set_applications (<[appID := app2]> (applications pc1))
                          (set_queues h' pc1), None)
                end
              end
          end
        end
      end.

(** [func (pc *PartitionContext) unReserveCount(appID string, asks int)] *)
Definition unReserveCount (pc : PartitionContext) (appID : string) (asks : Z)
    : PartitionContext :=
  match reservedApps pc !! appID with
  | Some num =>
    if bool_decide (num = asks)
    then set_reservedApps (delete appID (reservedApps pc)) pc
    else set_reservedApps (<[appID := int (num - asks)]> (reservedApps pc)) pc
  | None => pc
  end.

(** [func (pc *PartitionContext) addAllocation(alloc *objects.Allocation) error] *)
Definition addAllocation (pc : PartitionContext) (alloc : Allocation.t)
    : prun (option error) :=
  if isStopped pc
  then Some (pc, Some (ErrPartitionStopped (Allocation.AllocationKey alloc)))
  else if bool_decide (Allocation.UUID alloc = "")
  then Some (pc, Some (ErrMissingUUID (Allocation.AllocationKey alloc)
                                      (Allocation.ApplicationID alloc)))
  else
    match nodes pc !! Allocation.NodeID alloc with
    | None => Some (pc, Some (ErrNodeNotFound (Allocation.NodeID alloc)))
    | Some node =>
      match applications pc !! Allocation.ApplicationID alloc with
      | None => Some (pc, Some (ErrApplicationNotFound (Allocation.ApplicationID alloc)))
      | Some app =>
        let queue := Application.GetQueue app in
        if negb (Node.IsSchedulable node)
        then Some (pc, Some (ErrNodeNotSchedulable (Node.NodeID node)))
        else
          match queue with
          | None => None
          | Some q =>
            match IncAllocatedResource (budget (queues pc)) (queues pc) q
                    (Allocation.AllocatedResource alloc) true with
            | None => None
            | Some (h', Some err) =>
              Some (set_queues h' pc,
                    Some (ErrCannotAllocate (Allocation.ApplicationID alloc) err))
            | Some (h', None) =>
              let node' := Node.AddAllocation node alloc in
              let app' := Application.AddAllocation
                            (Application.RecoverAllocationAsk app (Allocation.Ask alloc))
                            alloc in
              Some (set_allocations (<[Allocation.UUID alloc := alloc]> (allocations pc))
                      (set_applications
                         (<[Allocation.ApplicationID alloc := app']> (applications pc))
                         (set_nodes (<[Allocation.NodeID alloc := node']> (nodes pc))
                            (set_queues h' pc))),
                    None)
            end
          end
      end
    end.

(** The loop of [removeNodeAllocations] over the allocations of the
    node. *)
Fixpoint releaseAllocations (pc : PartitionContext) (allocs released : list Allocation.t)
    : prun (list Allocation.t) :=
  match allocs with
  | [] => Some (pc, released)
  | alloc :: rest =>
    let allocID := Allocation.UUID alloc in
    match applications pc !! Allocation.ApplicationID alloc with
    | None => releaseAllocations pc rest released
    | Some app =>
      let (app', removed) := Application.RemoveAllocation app allocID in
      let pc1 := set_applications
                   (<[Allocation.ApplicationID alloc := app']> (applications pc)) pc in
      match removed with
      | None => releaseAllocations pc1 rest released
      | Some _ =>
        match Application.GetQueue app' with
        | None => None
        | Some q =>
          match decAllocatedResource (budget (queues pc1)) (queues pc1) q
                  (Allocation.AllocatedResource alloc) with
          | None => None
          | Some (h', _) =>
            releaseAllocations (set_queues h' pc1) rest (released ++ [alloc])
          end
        end
      end
    end
  end.

(** [func (pc *PartitionContext) removeNodeAllocations(node *objects.Node)] *)
Definition removeNodeAllocations (pc : PartitionContext) (node : Node.t)
    : prun (list Allocation.t) :=
  releaseAllocations pc (Node.GetAllAllocations node) [].

(** The loop of [removeNodeInternal] over the reserved applications. *)
Fixpoint unReserveCounts (pc : PartitionContext) (reservedKeys : list string)
    (releasedAsks : list Z) : option PartitionContext :=
  match reservedKeys, releasedAsks with
  | [], _ => Some pc
  | appID :: keys, asks :: rest => unReserveCounts (unReserveCount pc appID asks) keys rest
  | _ :: _, [] => None
  end.

(** [func (pc *PartitionContext) removeNodeInternal(nodeID string)];
    a nil slice is the empty list. *)
Definition removeNodeInternal (pc : PartitionContext) (nodeID : string)
    : prun (list Allocation.t) :=
  match nodes pc !! nodeID with
  | None => Some (pc, [])
  | Some node =>
    let pc1 := set_nodes (delete nodeID (nodes pc)) pc in
    match removeNodeAllocations pc1 node with
    | None => None
    | Some (pc2, released) =>
      let pc3 := set_totalPartitionResource
                   (SubFrom (totalPartitionResource pc2) (Node.GetCapacity node)) pc2 in
      match setMaxResource (queues pc3) (root pc3) (totalPartitionResource pc3) with
      | None => None
      | Some h' =>
        let pc4 := set_queues h' pc3 in
        let '(_, apps, reservedKeys, releasedAsks) :=
          UnReserveApps node (applications pc4) in
        match unReserveCounts (set_applications apps pc4) reservedKeys releasedAsks with
        | None => None
        | Some pc5 => Some (pc5, released)
        end
      end
    end
  end.

(** [func (pc *PartitionContext) removeNode(nodeID string)] *)
Definition removeNode (pc : PartitionContext) (nodeID : string)
    : prun (list Allocation.t) :=
  removeNodeInternal pc nodeID.

(** The loop of [AddNode] over the allocations the node reports. *)
Fixpoint addExisting (pc : PartitionContext) (nodeID : string)
    (existingAllocations : list Allocation.t) : prun (option error) :=
  match existingAllocations with
  | [] => Some (pc, None)
  | alloc :: rest =>
    match addAllocation pc alloc with
    | None => None
    | Some (pc1, Some err) =>
      match removeNodeInternal pc1 nodeID with
      | None => None
      | Some (pc2, released) => Some (pc2, Some err)
      end
    | Some (pc1, None) => addExisting pc1 nodeID rest
    end
  end.

(** [func (pc *PartitionContext) AddNode(node, existingAllocations) error] *)
Definition AddNode (pc : PartitionContext) (node : option Node.t)
    (existingAllocations : list Allocation.t) : prun (option error) :=
  match node with
  | None => Some (pc, Some ErrNilNode)
  | Some node =>
    if isDraining pc || isStopped pc
    then Some (pc, Some (ErrPartitionStopped (Node.NodeID node)))
    else if bool_decide (nodes pc !! Node.NodeID node <> None)
    then Some (pc, Some (ErrNodeExists (Node.NodeID node)))
    else
      let total :=
        match totalPartitionResource pc with
        | None => Clone (Node.GetCapacity node)
        | Some _ => AddTo (totalPartitionResource pc) (Node.GetCapacity node)
        end in
      let pc1 := set_totalPartitionResource total pc in
      match setMaxResource (queues pc1) (root pc1) (totalPartitionResource pc1) with
      | None => None
      | Some h' =>
        let pc2 := set_nodes (<[Node.NodeID node := node]> (nodes pc1))
                             (set_queues h' pc1) in
        addExisting pc2 (Node.NodeID node) existingAllocations
      end
  end.







End scheduler.

(** ** A small partition to run the code on *)

Module examples.

Import resources security cache objects scheduler.

Definition memory (n : Z) : Resource := {["memory" := n]}.

Definition denyAll : ACL := mkACL false [] [].
Definition allowAll : ACL := mkACL true [] [].

(** The queues of the base partition of the tests: [root], with submit
    ACL [*], and its leaf [root.default]. *)
Definition rootQueue : QueueInfo :=
  mkQueueInfo "root" None ∅ denyAll allowAll (Some (memory 20)) None
              (Some (memory 10)) false true Active {["default" := 2%positive]} ∅ 0.

Definition defaultQueue : QueueInfo :=
  mkQueueInfo "default" (Some 1%positive) ∅ denyAll denyAll None None
              (Some (memory 10)) true true Active ∅ ∅ 0.

Definition baseQueues : heap :=
  {[1%positive := rootQueue; 2%positive := defaultQueue]}.

(** The same queues with [root] marked for removal. *)
Definition drainingRoot : QueueInfo :=
  mkQueueInfo "root" None ∅ denyAll allowAll (Some (memory 20)) None
              (Some (memory 10)) false true Draining {["default" := 2%positive]} ∅ 0.

Definition drainingQueues : heap :=
  {[1%positive := drainingRoot; 2%positive := defaultQueue]}.

Definition alice : UserGroup := mkUserGroup "alice" ["dev"].

(** No placement rules: placement is disabled. *)
Definition noPlacement : placement.AppPlacementManager :=
  placement.mk false (fun _ _ _ => inr "").

Definition basePartition : PartitionContext :=
  mkPartitionContext "testRM" "test" 1%positive baseQueues ∅ ∅ ∅ ∅
                     noPlacement Active None.

Definition app1 : Application.t :=
  Application.mk "app-1" "root.default" alice None ∅ ∅ ∅.

Definition node1 : Node.t :=
  Node.mk "node-1" (Some (memory 100)) None (Some NewResource) ∅ ∅ true.

Definition node2 : Node.t :=
  Node.mk "node-2" (Some (memory 100)) None (Some NewResource) ∅ ∅ true.

Definition alloc1 : Allocation.t :=
  Allocation.mk None "uuid-1" "key-1" "app-1" "root.default" "node-1" ""
                (Some (memory 10)) Allocated.

Definition alloc2 : Allocation.t :=
  Allocation.mk None "uuid-2" "key-2" "app-1" "root.default" "node-1" ""
                (Some (memory 10)) Allocated.

(** [appPartition] with [node1] added to it. *)
Definition nodePartition : PartitionContext :=
  mkPartitionContext "testRM" "test" 1%positive
    (<[1%positive := cache.set_maxResource (Some (memory 100)) rootQueue]>
       (<[2%positive := cache.set_applications {["app-1"]} defaultQueue]> baseQueues))
    {["app-1" := Application.SetQueue app1 (Some 2%positive)]} ∅
    {["node-1" := node1]} ∅
    noPlacement Active (Some (memory 100)).

(** An allocation that comes without a UUID. *)
Definition allocNoUUID : Allocation.t :=
  Allocation.mk None "" "key-3" "app-1" "root.default" "node-1" ""
                (Some (memory 10)) Allocated.

(** An allocation with the UUID of [alloc1]. *)
Definition alloc1Again : Allocation.t :=
  Allocation.mk None "uuid-1" "key-4" "app-1" "root.default" "node-1" ""
                (Some (memory 5)) Allocated.


(** The base partition with [app1] in [root.default]. *)
Definition appPartition : PartitionContext :=
  mkPartitionContext "testRM" "test" 1%positive
    (<[2%positive := cache.set_applications {["app-1"]} defaultQueue]> baseQueues)
    {["app-1" := Application.SetQueue app1 (Some 2%positive)]} ∅ ∅ ∅
    noPlacement Active None.

End examples.

(** ** Notions the properties are stated with *)

Module notions.

Import resources security cache.

(** In queue [a], [alloc] on top of what is allocated does not fit in
    the max resource that is set. *)
Definition overMaximum (h : heap) (alloc : option Resource) (a : qid) : Prop :=
  exists qi, h !! a = Some qi /\ maxResource qi <> None /\
    FitIn (maxResource qi) (Some (Add (allocatedResource qi) alloc)) = false.

(** In queue [a], [alloc] does not fit in what is allocated. *)
Definition overAllocated (h : heap) (alloc : option Resource) (a : qid) : Prop :=
  exists qi, h !! a = Some qi /\ FitIn (allocatedResource qi) alloc = false.

(** The queue with [alloc] added to, or subtracted from, its allocated
    resource. *)
Definition added (alloc : option Resource) (qi : QueueInfo) : QueueInfo :=
  set_allocatedResource (Some (Add (allocatedResource qi) alloc)) qi.

Definition subtracted (alloc : option Resource) (qi : QueueInfo) : QueueInfo :=
  set_allocatedResource (Some (Sub (allocatedResource qi) alloc)) qi.

(** The store [h'] is [h] with [f] applied to the queues of [l]. *)
Definition updated (f : QueueInfo -> QueueInfo) (l : list qid) (h h' : heap) : Prop :=
  forall a, h' !! a = if bool_decide (a ∈ l) then f <$> h !! a else h !! a.

(** One of the ACLs of queue [a] admits the user. *)
Definition admits (h : heap) (user : UserGroup) (a : qid) : Prop :=
  exists qi, h !! a = Some qi /\
    (CheckAccess (submitACL qi) user = true \/ CheckAccess (adminACL qi) user = true).

Import objects scheduler.

(** The root of the partition is a queue without a parent, and every
    application of the partition is placed in a queue with a path to the
    root. *)
Definition wellFormed (pc : PartitionContext) : Prop :=
  (exists qi, queues pc !! root pc = Some qi /\ Parent qi = None)
  /\ (forall appID app, applications pc !! appID = Some app ->
        exists q l, Application.GetQueue app = Some q /\ path_to_root (queues pc) q l).

(** [pc'] is [pc] after [addAllocation] has run on the allocations in
    turn and has returned nil on each. *)
Inductive replayed : PartitionContext -> list Allocation.t -> PartitionContext -> Prop :=
  | replayed_nil pc : replayed pc [] pc
  | replayed_cons pc alloc pc1 rest pc' :
      addAllocation pc alloc = Some (pc1, None) -> replayed pc1 rest pc' ->
      replayed pc (alloc :: rest) pc'.

(** The total of the partition after a node of capacity [capacity] has
    been added to it. *)
Definition totalWith (pc : PartitionContext) (capacity : option Resource)
    : option Resource :=
  match totalPartitionResource pc with
  | None => Clone capacity
  | Some _ => AddTo (totalPartitionResource pc) capacity
  end.

(** The application of the allocation holds an allocation under its
    UUID. *)
Definition held (pc : PartitionContext) (alloc : Allocation.t) : Prop :=
  exists app, applications pc !! Allocation.ApplicationID alloc = Some app
              /\ is_Some (Application.allocations app !! Allocation.UUID alloc).




End notions.

Import resources security cache notions.
Import objects scheduler.

(** * Properties of the queue structure *)

Section Paths.

Context (h : heap).

Lemma path_head q l : path_to_root h q l -> exists l', l = q :: l'.
Proof. destruct 1; eauto. Qed.

Lemma path_lookup q l a : path_to_root h q l -> a ∈ l -> is_Some (h !! a).
Proof.
  induction 1 as [q qi Hq Hp | q qi p l Hq Hp Hl IH]; intros Ha.
  - apply list_elem_of_singleton in Ha as ->. eauto.
  - apply elem_of_cons in Ha as [-> | Ha]; eauto.
Qed.

Lemma path_deterministic q l1 l2 :
  path_to_root h q l1 -> path_to_root h q l2 -> l1 = l2.
Proof.
  intros H1. revert l2.
  induction H1 as [q qi Hq Hp | q qi p l Hq Hp Hl IH]; intros l2 H2.
  - inversion H2; subst; [done | congruence].
  - inversion H2 as [? qi' Hq' Hp' | ? qi' p' l' Hq' Hp' Hl']; subst.
    + congruence.
    + assert (p' = p) as -> by congruence. f_equal. by apply IH.
Qed.

Lemma path_from_member q l a :
  path_to_root h q l -> a ∈ l ->
  exists l', path_to_root h a l' /\ (length l' <= length l)%nat.
Proof.
  induction 1 as [q qi Hq Hp | q qi p l Hq Hp Hl IH]; intros Ha.
  - apply list_elem_of_singleton in Ha as ->.
    exists [q]. split; [by econstructor | done].
  - apply elem_of_cons in Ha as [-> | Ha].
    + exists (q :: l). split; [by econstructor | done].
    + destruct (IH Ha) as (l' & Hl' & Hlen). exists l'. split; [done | simpl; lia].
Qed.

(** A path to the root visits no queue twice. *)
Lemma path_NoDup q l : path_to_root h q l -> NoDup l.
Proof.
  induction 1 as [q qi Hq Hp | q qi p l Hq Hp Hl IH].
  - apply NoDup_singleton.
  - apply NoDup_cons. split; [| done].
    intros Hin. destruct (path_from_member _ _ _ Hl Hin) as (l' & Hl' & Hlen).
    assert (l' = q :: l) as ->
      by (eapply path_deterministic; [done | by econstructor]).
    simpl in Hlen. lia.
Qed.

Lemma path_length q l : path_to_root h q l -> (length l <= size h)%nat.
Proof.
  intros Hp.
  assert (list_to_set l ⊆ dom h) as Hsub.
  { intros a Ha. apply elem_of_list_to_set in Ha. apply elem_of_dom.
    by eapply path_lookup. }
  apply subseteq_size in Hsub.
  rewrite size_list_to_set in Hsub by by eapply path_NoDup.
  by rewrite size_dom in Hsub.
Qed.

End Paths.

(** The path of a queue only depends on the parent links. *)
Lemma path_parents (h h' : heap) q l :
  (forall a, Parent <$> h' !! a = Parent <$> h !! a) ->
  path_to_root h q l -> path_to_root h' q l.
Proof.
  intros Heq. induction 1 as [q qi Hq Hp | q qi p l Hq Hp Hl IH].
  - specialize (Heq q). rewrite Hq in Heq. simpl in Heq.
    destruct (h' !! q) as [qi' |] eqn:Hq'; simplify_eq/=.
    apply (path_root _ _ qi'); [done | congruence].
  - specialize (Heq q). rewrite Hq in Heq. simpl in Heq.
    destruct (h' !! q) as [qi' |] eqn:Hq'; simplify_eq/=.
    apply (path_step _ _ qi' p); [done | congruence | done].
Qed.

Section Allocated.

Context (h : heap) (alloc : option Resource).

Lemma updated_field {A} (g : QueueInfo -> A) f l h' :
  (forall qi, g (f qi) = g qi) -> updated f l h h' ->
  forall a, g <$> h' !! a = g <$> h !! a.
Proof.
  intros Hf Hup a. rewrite (Hup a). case_bool_decide; [| done].
  destruct (h !! a); simpl; [by rewrite Hf | done].
Qed.

(** What [IncAllocatedResource] returns on a queue with a path to the
    root: an error and the store as it was when the check is on and a
    queue of the path is over its maximum, else nil and the store with
    [alloc] added along the path. *)
Lemma IncAllocatedResource_result q l nodeReported fuel :
  path_to_root h q l -> (length l <= fuel)%nat ->
  (nodeReported = false /\ (exists a, a ∈ l /\ overMaximum h alloc a) /\
     exists err, IncAllocatedResource fuel h q alloc nodeReported = Some (h, Some err))
  \/ ((nodeReported = true \/ forall a, a ∈ l -> ~ overMaximum h alloc a) /\
        exists h', IncAllocatedResource fuel h q alloc nodeReported = Some (h', None)
                   /\ updated (added alloc) l h h').
Proof.
  intros Hpath. pose proof (path_NoDup _ _ _ Hpath) as Hnd. revert fuel Hnd.
  induction Hpath as [q qi Hq Hp | q qi p l Hq Hp Hl IH]; intros fuel Hnd Hlen;
    (destruct fuel as [| fuel]; [simpl in Hlen; lia |]); simpl; rewrite Hq, Hp.
  - destruct (negb nodeReported && _) eqn:Hc.
    + left. apply andb_true_iff in Hc as [Hn Hc]. apply andb_true_iff in Hc as [Hm Hf].
      apply negb_true_iff in Hn, Hf. apply bool_decide_eq_true in Hm.
      split; [done |]. split; [| eauto].
      exists q. split; [apply list_elem_of_singleton; done |]. exists qi. done.
    + right. split.
      * destruct nodeReported; [by left | right]. simpl in Hc.
        intros a Ha (qi' & Hq' & Hm & Hf). apply list_elem_of_singleton in Ha as ->.
        simplify_eq. rewrite Hf in Hc. rewrite bool_decide_eq_true_2 in Hc; done.
      * eexists. split; [done |]. intros a. rewrite lookup_alter.
        case_decide as Ha; subst.
        -- rewrite bool_decide_eq_true_2 by (apply list_elem_of_singleton; done).
           by rewrite Hq.
        -- rewrite bool_decide_eq_false_2; [done |].
           intros ?%list_elem_of_singleton. done.
  - apply NoDup_cons in Hnd as [Hql Hnd]. simpl in Hlen.
    destruct (negb nodeReported && _) eqn:Hc.
    + left. apply andb_true_iff in Hc as [Hn Hc]. apply andb_true_iff in Hc as [Hm Hf].
      apply negb_true_iff in Hn, Hf. apply bool_decide_eq_true in Hm.
      split; [done |]. split; [| eauto].
      exists q. split; [apply elem_of_cons; by left |]. exists qi. done.
    + destruct (IH fuel Hnd ltac:(lia)) as
        [(Hn & (a & Ha & Hover) & (err & ->)) | (Hok & (h' & -> & Hup))].
      * left. split; [done |]. split; [| eauto]. exists a. split; [apply elem_of_cons; by right | done].
      * right. split.
        -- destruct nodeReported; [by left | right]. simpl in Hc.
           destruct Hok as [? | Hok]; [done |].
           intros a Ha. apply elem_of_cons in Ha as [-> | Ha]; [| by apply Hok].
           intros (qi' & Hq' & Hm & Hf). simplify_eq.
           rewrite Hf in Hc. rewrite bool_decide_eq_true_2 in Hc; done.
        -- eexists. split; [done |]. intros a. rewrite lookup_alter.
           case_decide as Ha; subst.
           ++ rewrite bool_decide_eq_true_2 by (apply elem_of_cons; by left).
              rewrite (Hup a), bool_decide_eq_false_2 by done. by rewrite Hq.
           ++ rewrite (Hup a).
              assert (bool_decide (a ∈ q :: l) = bool_decide (a ∈ l)) as ->; [| done].
              apply bool_decide_ext. rewrite elem_of_cons.
              split; [intros [? | ?]; [congruence | done] | by right].
Qed.

End Allocated.

Section Released.

Context (h : heap) (alloc : option Resource).

(** What [decAllocatedResource] returns on a queue with a path to the
    root: an error and the store as it was when a queue of the path
    holds less than the non-nil [alloc], else nil and the store with
    [alloc] subtracted along the path. *)
Lemma decAllocatedResource_result q l fuel :
  path_to_root h q l -> (length l <= fuel)%nat ->
  (alloc <> None /\ (exists a, a ∈ l /\ overAllocated h alloc a) /\
     exists err, decAllocatedResource fuel h q alloc = Some (h, Some err))
  \/ ((alloc = None \/ forall a, a ∈ l -> ~ overAllocated h alloc a) /\
        exists h', decAllocatedResource fuel h q alloc = Some (h', None)
                   /\ updated (subtracted alloc) l h h').
Proof.
  intros Hpath. pose proof (path_NoDup _ _ _ Hpath) as Hnd. revert fuel Hnd.
  induction Hpath as [q qi Hq Hp | q qi p l Hq Hp Hl IH]; intros fuel Hnd Hlen;
    (destruct fuel as [| fuel]; [simpl in Hlen; lia |]); simpl; rewrite Hq, Hp.
  - destruct (bool_decide (alloc <> None) && _) eqn:Hc.
    + left. apply andb_true_iff in Hc as [Hn Hf].
      apply negb_true_iff in Hf. apply bool_decide_eq_true in Hn.
      split; [done |]. split; [| eauto].
      exists q. split; [apply list_elem_of_singleton; done |]. exists qi. done.
    + right. split.
      * destruct (decide (alloc = None)) as [| Hsome]; [by left | right].
        rewrite bool_decide_eq_true_2 in Hc by done. simpl in Hc.
        intros a Ha (qi' & Hq' & Hf). apply list_elem_of_singleton in Ha as ->.
        simplify_eq. by rewrite Hf in Hc.
      * eexists. split; [done |]. intros a. rewrite lookup_alter.
        case_decide as Ha; subst.
        -- rewrite bool_decide_eq_true_2 by (apply list_elem_of_singleton; done).
           by rewrite Hq.
        -- rewrite bool_decide_eq_false_2; [done |].
           intros ?%list_elem_of_singleton. done.
  - apply NoDup_cons in Hnd as [Hql Hnd]. simpl in Hlen.
    destruct (bool_decide (alloc <> None) && _) eqn:Hc.
    + left. apply andb_true_iff in Hc as [Hn Hf].
      apply negb_true_iff in Hf. apply bool_decide_eq_true in Hn.
      split; [done |]. split; [| eauto].
      exists q. split; [apply elem_of_cons; by left |]. exists qi. done.
    + destruct (IH fuel Hnd ltac:(lia)) as
        [(Hn & (a & Ha & Hover) & (err & ->)) | (Hok & (h' & -> & Hup))].
      * left. split; [done |]. split; [| eauto].
        exists a. split; [apply elem_of_cons; by right | done].
      * right. split.
        -- destruct (decide (alloc = None)) as [| Hsome]; [by left | right].
           rewrite bool_decide_eq_true_2 in Hc by done. simpl in Hc.
           destruct Hok as [? | Hok]; [done |].
           intros a Ha. apply elem_of_cons in Ha as [-> | Ha]; [| by apply Hok].
           intros (qi' & Hq' & Hf). simplify_eq. by rewrite Hf in Hc.
        -- eexists. split; [done |]. intros a. rewrite lookup_alter.
           case_decide as Ha; subst.
           ++ rewrite bool_decide_eq_true_2 by (apply elem_of_cons; by left).
              rewrite (Hup a), bool_decide_eq_false_2 by done. by rewrite Hq.
           ++ rewrite (Hup a).
              assert (bool_decide (a ∈ q :: l) = bool_decide (a ∈ l)) as ->; [| done].
              apply bool_decide_ext. rewrite elem_of_cons.
              split; [intros [? | ?]; [congruence | done] | by right].
Qed.

End Released.

(** C1.  [IncAllocatedResource] on a queue with a path [l] to the root:
    without the node-reported flag it returns an error when a queue of the
    path has a max resource set in which its allocated resource plus
    [alloc] does not fit; whenever it returns an error the store is as it
    was; when it returns nil, [alloc] has been added to the allocated
    resource of every queue of the path (and nothing else changed); with
    the node-reported flag it returns nil.  It returns in every case. *)
Theorem IncAllocatedResource_guards_maximum (h : heap) q l alloc fuel :
  path_to_root h q l -> (length l <= fuel)%nat ->
  ((exists a, a ∈ l /\ overMaximum h alloc a) ->
     exists err, IncAllocatedResource fuel h q alloc false = Some (h, Some err))
  /\ (forall nodeReported h' err,
        IncAllocatedResource fuel h q alloc nodeReported = Some (h', Some err) -> h' = h)
  /\ (forall nodeReported h',
        IncAllocatedResource fuel h q alloc nodeReported = Some (h', None) ->
        updated (added alloc) l h h')
  /\ (exists h', IncAllocatedResource fuel h q alloc true = Some (h', None))
  /\ (forall nodeReported, is_Some (IncAllocatedResource fuel h q alloc nodeReported)).
Proof.
  intros Hpath Hlen.
  pose proof (fun nr => IncAllocatedResource_result h alloc q l nr fuel Hpath Hlen) as H.
  repeat split.
  - intros (a & Ha & Hover).
    destruct (H false) as [(_ & _ & Herr) | ([? | Hno] & _)]; [done | done |].
    by destruct (Hno a Ha).
  - intros nr h' err Hrun.
    destruct (H nr) as [(_ & _ & (err' & Herr)) | (_ & (h'' & Hok & _))]; congruence.
  - intros nr h' Hrun.
    destruct (H nr) as [(_ & _ & (err' & Herr)) | (_ & (h'' & Hok & Hup))]; [congruence |].
    by simplify_eq.
  - destruct (H true) as [(? & _) | (_ & (h' & Hok & _))]; [done | eauto].
  - intros nr.
    destruct (H nr) as [(_ & _ & (err' & ->)) | (_ & (h'' & -> & _))]; eauto.
Qed.

Lemma IncAllocatedResource_guards_maximum_witness :
  (exists err, IncAllocatedResource 2 examples.baseQueues 2%positive
                 (Some (examples.memory 15)) false
               = Some (examples.baseQueues, Some err))
  /\ (exists h', IncAllocatedResource 2 examples.baseQueues 2%positive
                   (Some (examples.memory 15)) true = Some (h', None)).
Proof.
  assert (path_to_root examples.baseQueues 2%positive [2%positive; 1%positive]) as Hpath.
  { eapply path_step; [reflexivity | reflexivity |].
    eapply path_root; reflexivity. }
  destruct (IncAllocatedResource_guards_maximum examples.baseQueues 2%positive _
              (Some (examples.memory 15)) 2 Hpath ltac:(simpl; lia))
    as (Hover & _ & _ & Hnode & _).
  split; [| exact Hnode].
  apply Hover. exists 1%positive. split; [apply elem_of_cons; right; apply elem_of_cons; by left |].
  eexists. split; [reflexivity |]. split; [done |]. vm_compute. reflexivity.
Defined.

(** C2.  [decAllocatedResource] with a non-nil [r] on a queue with a path
    [l] to the root: it returns an error when [r] does not fit in the
    allocated resource of a queue of the path; whenever it returns an
    error the store is as it was; when it returns nil, [r] has been
    subtracted from the allocated resource of every queue of the path (and
    nothing else changed).  It returns in every case. *)
Theorem decAllocatedResource_guards_release (h : heap) q l (r : Resource) fuel :
  path_to_root h q l -> (length l <= fuel)%nat ->
  ((exists a, a ∈ l /\ overAllocated h (Some r) a) ->
     exists err, decAllocatedResource fuel h q (Some r) = Some (h, Some err))
  /\ (forall h' err,
        decAllocatedResource fuel h q (Some r) = Some (h', Some err) -> h' = h)
  /\ (forall h',
        decAllocatedResource fuel h q (Some r) = Some (h', None) ->
        updated (subtracted (Some r)) l h h')
  /\ is_Some (decAllocatedResource fuel h q (Some r)).
Proof.
  intros Hpath Hlen.
  pose proof (decAllocatedResource_result h (Some r) q l fuel Hpath Hlen) as H.
  repeat split.
  - intros (a & Ha & Hover).
    destruct H as [(_ & _ & Herr) | ([? | Hno] & _)]; [done | done |].
    by destruct (Hno a Ha).
  - intros h' err Hrun.
    destruct H as [(_ & _ & (err' & Herr)) | (_ & (h'' & Hok & _))]; congruence.
  - intros h' Hrun.
    destruct H as [(_ & _ & (err' & Herr)) | (_ & (h'' & Hok & Hup))]; [congruence |].
    by simplify_eq.
  - destruct H as [(_ & _ & (err' & ->)) | (_ & (h'' & -> & _))]; eauto.
Qed.

Lemma decAllocatedResource_guards_release_witness :
  (exists err, decAllocatedResource 2 examples.baseQueues 2%positive
                 (Some (examples.memory 15))
               = Some (examples.baseQueues, Some err))
  /\ is_Some (decAllocatedResource 2 examples.baseQueues 2%positive
                (Some (examples.memory 15))).
Proof.
  assert (path_to_root examples.baseQueues 2%positive [2%positive; 1%positive]) as Hpath.
  { eapply path_step; [reflexivity | reflexivity |].
    eapply path_root; reflexivity. }
  destruct (decAllocatedResource_guards_release examples.baseQueues 2%positive _
              (examples.memory 15) 2 Hpath ltac:(simpl; lia))
    as (Hover & _ & _ & Hret).
  split; [| exact Hret].
  apply Hover. exists 1%positive. split; [apply elem_of_cons; right; apply elem_of_cons; by left |].
  eexists. split; [reflexivity |]. vm_compute. reflexivity.
Defined.

Section Access.

Context (h : heap) (user : UserGroup).

Lemma CheckSubmitAccess_result q l fuel :
  path_to_root h q l -> (length l <= fuel)%nat ->
  exists b, CheckSubmitAccess fuel h q user = Some b
            /\ (b = true <-> exists a, a ∈ l /\ admits h user a).
Proof.
  intros Hpath. revert fuel.
  induction Hpath as [q qi Hq Hp | q qi p l Hq Hp Hl IH]; intros fuel Hlen;
    (destruct fuel as [| fuel]; [simpl in Hlen; lia |]); simpl; rewrite Hq, Hp.
  - eexists. split; [done |]. rewrite orb_true_iff. split.
    + intros Hor. exists q. split; [apply list_elem_of_singleton; done |]. by exists qi.
    + intros (a & Ha & (qi' & Hq' & Hor)).
      apply list_elem_of_singleton in Ha as ->. by simplify_eq.
  - simpl in Hlen.
    destruct (CheckAccess (submitACL qi) user || CheckAccess (adminACL qi) user) eqn:Hor;
      simpl.
    + exists true. split; [done |]. split; [| done]. intros _.
      exists q. split; [apply elem_of_cons; by left |]. exists qi.
      by apply orb_true_iff in Hor.
    + destruct (IH fuel ltac:(lia)) as (b & -> & Hb). exists b. split; [done |].
      rewrite Hb. split.
      * intros (a & Ha & Hadm). exists a. split; [apply elem_of_cons; by right | done].
      * intros (a & Ha & Hadm). apply elem_of_cons in Ha as [-> | Ha]; [| eauto].
        destruct Hadm as (qi' & Hq' & Hadm). simplify_eq.
        apply orb_true_iff in Hadm. congruence.
Qed.

Lemma CheckSubmitAccess_frame (h2 : heap) q l fuel :
  path_to_root h q l -> (forall a, a ∈ l -> h2 !! a = h !! a) ->
  CheckSubmitAccess fuel h2 q user = CheckSubmitAccess fuel h q user.
Proof.
  intros Hpath. revert fuel.
  induction Hpath as [q qi Hq Hp | q qi p l Hq Hp Hl IH]; intros fuel Hsame;
    (destruct fuel as [| fuel]; [done |]); simpl.
  - rewrite (Hsame q) by (apply list_elem_of_singleton; done). by rewrite Hq, Hp.
  - rewrite (Hsame q) by (apply elem_of_cons; by left). rewrite Hq, Hp.
    rewrite IH; [done |]. intros a Ha. apply Hsame, elem_of_cons. by right.
Qed.

End Access.

(** C7.  [CheckSubmitAccess] on a queue with a path [l] to the root
    returns true exactly when the submit ACL or the admin ACL of a queue
    of the path admits the user, and the queues off the path have no
    part in the result: a store with the same queues on the path gives
    the same answer. *)
Theorem CheckSubmitAccess_walks_path (h : heap) q l user fuel :
  path_to_root h q l -> (length l <= fuel)%nat ->
  (exists b, CheckSubmitAccess fuel h q user = Some b
             /\ (b = true <-> exists a, a ∈ l /\ admits h user a))
  /\ (forall h2 : heap, (forall a, a ∈ l -> h2 !! a = h !! a) ->
        CheckSubmitAccess fuel h2 q user = CheckSubmitAccess fuel h q user).
Proof.
  intros Hpath Hlen. split.
  - by apply CheckSubmitAccess_result.
  - intros h2 Hsame. by eapply CheckSubmitAccess_frame.
Qed.

Lemma CheckSubmitAccess_walks_path_witness :
  CheckSubmitAccess 2 examples.baseQueues 2%positive examples.alice = Some true.
Proof.
  assert (path_to_root examples.baseQueues 2%positive [2%positive; 1%positive]) as Hpath.
  { eapply path_step; [reflexivity | reflexivity |].
    eapply path_root; reflexivity. }
  destruct (CheckSubmitAccess_walks_path examples.baseQueues 2%positive _
              examples.alice 2 Hpath ltac:(simpl; lia)) as ((b & Hrun & Hb) & _).
  rewrite Hrun. f_equal. apply Hb.
  exists 1%positive. split; [apply elem_of_cons; right; apply elem_of_cons; by left |].
  eexists. split; [reflexivity |]. left. reflexivity.
Defined.

(** What [setMaxResource] does, by the parent of the queue. *)
Lemma setMaxResource_result (h : heap) q qi max :
  h !! q = Some qi ->
  setMaxResource h q max
  = Some (if bool_decide (Parent qi <> None) then h
          else <[q := set_maxResource (Clone max) qi]> h).
Proof.
  intros Hq. unfold setMaxResource. rewrite Hq. by case_bool_decide.
Qed.

Lemma insert_updated (h : heap) q qi f :
  h !! q = Some qi -> updated f [q] h (<[q := f qi]> h).
Proof.
  intros Hq a. rewrite lookup_insert. case_decide as Ha; subst.
  - rewrite bool_decide_eq_true_2 by (apply list_elem_of_singleton; done).
    by rewrite Hq.
  - rewrite bool_decide_eq_false_2; [done |].
    intros ?%list_elem_of_singleton. done.
Qed.

(** C8.  [setMaxResource] on a queue with a parent returns and leaves the
    store, so the queue with all its fields, as it was; on the root (nil
    parent) it sets [maxResource] to a clone of the argument and changes
    nothing else. *)
Theorem setMaxResource_root_only (h : heap) q qi max :
  h !! q = Some qi ->
  (Parent qi <> None -> setMaxResource h q max = Some h)
  /\ (Parent qi = None ->
      exists h', setMaxResource h q max = Some h'
                 /\ updated (set_maxResource (Clone max)) [q] h h'
                 /\ (maxResource <$> h' !! q) = Some (Clone max)).
Proof.
  intros Hq. rewrite (setMaxResource_result h q qi max Hq). split; intros Hp.
  - by rewrite bool_decide_eq_true_2.
  - rewrite bool_decide_eq_false_2 by (by rewrite Hp; intros []).
    eexists. split; [done |]. split.
    + by apply insert_updated.
    + by rewrite lookup_insert_eq.
Qed.

Lemma setMaxResource_root_only_witness :
  setMaxResource examples.baseQueues 2%positive (Some (examples.memory 5))
  = Some examples.baseQueues.
Proof.
  apply (setMaxResource_root_only examples.baseQueues 2%positive examples.defaultQueue).
  - reflexivity.
  - discriminate.
Defined.

(** C6, as the code has it.  [addChildQueue] fails on a leaf queue and on
    a Draining queue: it returns an error and the store is as it was.
    [removeChildQueue] makes no check and does not fail: on every queue it
    deletes the lower-cased name from the children, and when no child has
    that name the store is as it was. *)
Theorem child_queue_checks (h : heap) q qi :
  h !! q = Some qi ->
  (isLeaf qi = true \/ IsDraining qi = true ->
     forall child, exists err, addChildQueue h q child = Some (h, Some err))
  /\ (forall name, exists h',
        removeChildQueue h q name = Some h'
        /\ updated (fun qi' => set_children
                      (delete (strings.ToLower name) (children qi')) qi') [q] h h'
        /\ GetChildQueue h' q (strings.ToLower name) = None)
  /\ (forall name, children qi !! strings.ToLower name = None ->
        removeChildQueue h q name = Some h).
Proof.
  intros Hq. repeat split.
  - intros Hor child. unfold addChildQueue. rewrite Hq.
    destruct (isLeaf qi); [eauto |].
    destruct Hor as [? | ->]; [done | eauto].
  - intros name. unfold removeChildQueue. rewrite Hq. eexists. split; [done |]. split.
    + intros a. rewrite lookup_insert. case_decide as Ha; subst.
      * rewrite bool_decide_eq_true_2 by (apply list_elem_of_singleton; done).
        by rewrite Hq.
      * rewrite bool_decide_eq_false_2; [done |].
        intros ?%list_elem_of_singleton. done.
    + unfold GetChildQueue. rewrite lookup_insert_eq. simpl. apply lookup_delete_eq.
  - intros name Habsent. unfold removeChildQueue. rewrite Hq. f_equal.
    rewrite delete_id by done.
    destruct qi. by apply insert_id.
Qed.

Lemma child_queue_checks_witness :
  exists err, addChildQueue examples.drainingQueues 1%positive 2%positive
              = Some (examples.drainingQueues, Some err).
Proof.
  destruct (child_queue_checks examples.drainingQueues 1%positive examples.drainingRoot
              ltac:(reflexivity)) as (Hadd & _).
  apply Hadd. right. reflexivity.
Defined.

(** C6, as stated, does not hold for [removeChildQueue]: on a Draining
    queue it removes the child. *)
Lemma removeChildQueue_draining_counterexample :
  examples.drainingQueues !! 1%positive = Some examples.drainingRoot
  /\ IsDraining examples.drainingRoot = true
  /\ GetChildQueue examples.drainingQueues 1%positive "default" = Some 2%positive
  /\ exists h', removeChildQueue examples.drainingQueues 1%positive "default" = Some h'
                /\ GetChildQueue h' 1%positive "default" = None
                /\ h' <> examples.drainingQueues.
Proof.
  split; [reflexivity |]. split; [reflexivity |]. split; [reflexivity |].
  eexists. split; [reflexivity |]. split; [reflexivity |].
  intros Heq. apply (f_equal (fun m => GetChildQueue m 1%positive "default")) in Heq.
  vm_compute in Heq. discriminate.
Qed.

(** * Properties of the partition context *)

Lemma lower_dot c : Ascii.eqb (strings.lower c) configs.DOT = Ascii.eqb c configs.DOT.
Proof. destruct c as [[] [] [] [] [] [] [] []]; reflexivity. Qed.

Lemma ToLower_idempotent s : strings.ToLower (strings.ToLower s) = strings.ToLower s.
Proof.
  induction s as [| c s IH]; [done |]. simpl. rewrite IH. f_equal.
  destruct c as [[] [] [] [] [] [] [] []]; reflexivity.
Qed.

(** Lower-casing does not move the dots: the parts of the lower-cased
    name are the lower-cased parts of the name. *)
Lemma Split_ToLower s :
  strings.Split (strings.ToLower s) configs.DOT
  = strings.ToLower <$> strings.Split s configs.DOT.
Proof.
  induction s as [| c s IH]; [done |]. simpl. rewrite lower_dot, IH.
  destruct (Ascii.eqb c configs.DOT); [done |].
  destruct (strings.Split s configs.DOT); done.
Qed.

(** C9.  The queue lookup is case-insensitive: two names with the same
    lower-casing give the same queue, and so do a name and its
    lower-casing; a name whose first part, lower-cased, is not [root]
    gives nil. *)
Theorem getQueue_case_insensitive (pc : PartitionContext) :
  (forall a b, strings.ToLower a = strings.ToLower b -> GetQueue pc a = GetQueue pc b)
  /\ (forall name, GetQueue pc (strings.ToLower name) = GetQueue pc name)
  /\ (forall name,
        strings.ToLower <$> head (strings.Split name configs.DOT) <> Some configs.RootQueue ->
        getQueue pc name = None).
Proof.
  repeat split.
  - intros a b Hab. unfold GetQueue, getQueue. by rewrite Hab.
  - intros name. unfold GetQueue, getQueue. by rewrite ToLower_idempotent.
  - intros name Hfirst. unfold getQueue. rewrite Split_ToLower.
    destruct (strings.Split name configs.DOT) as [| first rest]; [done |].
    simpl in *. rewrite bool_decide_eq_true_2; [done |]. congruence.
Qed.

Lemma getQueue_case_insensitive_witness :
  GetQueue examples.basePartition "Root.DEFAULT" = Some 2%positive
  /\ getQueue examples.basePartition "rootx.default" = None.
Proof.
  destruct (getQueue_case_insensitive examples.basePartition) as (Hcase & _ & Hroot).
  split.
  - rewrite (Hcase "Root.DEFAULT" "root.default") by reflexivity. reflexivity.
  - apply Hroot. vm_compute. discriminate.
Defined.

(** ** The reservation counter *)

(** Case analysis on the first [match] of a run [H]. *)
Ltac case_match_in H :=
  match type of H with
  | context [match ?x with _ => _ end] => destruct x eqn:?
  end; try discriminate H.










(** ** Adding an application *)

Lemma createQueue_applications pc name user pc' r :
  createQueue pc name user = Some (pc', r) -> applications pc' = applications pc.
Proof.
  unfold createQueue. intros Hrun.
  repeat case_match_in Hrun; by simplify_eq.
Qed.

Lemma resolveQueue_applications pc app pc' r :
  resolveQueue pc app = Some (pc', r) -> applications pc' = applications pc.
Proof.
  unfold resolveQueue. intros Hrun.
  destruct (getQueue pc _); [by simplify_eq |].
  destruct (negb _); [by simplify_eq |].
  destruct (createQueue pc _ _) as [[pc1 [err | q]] |] eqn:Hcreate; [| | done];
    simplify_eq; by eapply createQueue_applications.
Qed.

(** C4.  [AddApplication] returns an error and leaves the partition as it
    was when the partition is Draining or Stopped or holds an application
    with the same ID; it returns an error when the queue the application
    resolves to is not a leaf or does not grant its user submit access;
    whenever it returns an error the applications of the partition are as
    they were.  When it returns nil, the application is in the
    applications of the partition under its ID, its queue field is the
    resolved queue, that queue is a leaf which grants the user submit
    access, and the application is among the applications of the
    queue. *)
Theorem AddApplication_checks_and_links (pc : PartitionContext) (app : Application.t) :
  let appID := Application.ApplicationID app in
  (isDraining pc = true \/ isStopped pc = true \/ applications pc !! appID <> None ->
     exists err, AddApplication pc app = Some (pc, Some err))
  /\ (forall app1 pc1 queue qi,
        isDraining pc = false -> isStopped pc = false -> applications pc !! appID = None ->
        placeApplication pc app = inl app1 ->
        resolveQueue pc app1 = Some (pc1, inr queue) ->
        queues pc1 !! queue = Some qi ->
        IsLeafQueue qi = false
        \/ CheckSubmitAccess (budget (queues pc1)) (queues pc1) queue
             (Application.GetUser app1) = Some false ->
        exists err, AddApplication pc app = Some (pc1, Some err))
  /\ (forall pc' err, AddApplication pc app = Some (pc', Some err) ->
        applications pc' = applications pc)
  /\ (forall pc', AddApplication pc app = Some (pc', None) ->
        exists app1 pc1 queue qi qi',
          placeApplication pc app = inl app1
          /\ resolveQueue pc app1 = Some (pc1, inr queue)
          /\ queues pc1 !! queue = Some qi /\ IsLeafQueue qi = true
          /\ CheckSubmitAccess (budget (queues pc1)) (queues pc1) queue
               (Application.GetUser app1) = Some true
          /\ applications pc'
             = <[appID := Application.SetQueue app1 (Some queue)]> (applications pc)
          /\ Application.GetQueue (Application.SetQueue app1 (Some queue)) = Some queue
          /\ queues pc' !! queue = Some qi'
          /\ appID ∈ cache.applications qi').
Proof.
  intros appID. unfold AddApplication. fold appID. repeat split.
  - intros [Hd | [Hs | Hdup]].
    + rewrite Hd. eauto.
    + rewrite Hs, orb_true_r. eauto.
    + destruct (isDraining pc || isStopped pc); [eauto |].
      rewrite bool_decide_eq_true_2 by done. eauto.
  - intros app1 pc1 queue qi Hd Hs Hnew Hplace Hres Hq Hdeny.
    rewrite Hd, Hs. cbn [orb]. rewrite bool_decide_eq_false_2 by (by rewrite Hnew; intros []).
    rewrite Hplace, Hres, Hq.
    destruct Hdeny as [Hleaf | Hacc].
    + rewrite Hleaf. cbn [negb]. eauto.
    + destruct (negb (IsLeafQueue qi)); [eauto |]. rewrite Hacc. eauto.
  - intros pc' err Hrun.
    destruct (isDraining pc || isStopped pc); [by simplify_eq |].
    case_bool_decide; [by simplify_eq |].
    destruct (placeApplication pc app) as [app1 | e]; [| by simplify_eq].
    destruct (resolveQueue pc app1) as [[pc1 [e | queue]] |] eqn:Hres; [| | done].
    + simplify_eq. by eapply resolveQueue_applications.
    + apply resolveQueue_applications in Hres.
      repeat case_match_in Hrun; by simplify_eq.
  - intros pc' Hrun.
    destruct (isDraining pc || isStopped pc); [by simplify_eq |].
    case_bool_decide; [by simplify_eq |].
    destruct (placeApplication pc app) as [app1 | e]; [| by simplify_eq].
    destruct (resolveQueue pc app1) as [[pc1 [e | queue]] |] eqn:Hres; [by simplify_eq | | done].
    destruct (queues pc1 !! queue) as [qi |] eqn:Hq; [| done].
    destruct (IsLeafQueue qi) eqn:Hleaf; cbn [negb] in Hrun; [| by simplify_eq].
    destruct (CheckSubmitAccess _ _ _ _) as [[] |] eqn:Hacc; [| by simplify_eq | done].
    unfold cache.AddApplication in Hrun. rewrite Hq in Hrun. simplify_eq.
    exists app1, pc1, queue, qi. eexists. simpl.
    rewrite (resolveQueue_applications _ _ _ _ Hres).
    repeat split; try done.
    + apply lookup_insert_eq.
    + simpl. set_solver.
Qed.

Lemma AddApplication_checks_and_links_witness :
  (exists err, AddApplication examples.appPartition examples.app1
               = Some (examples.appPartition, Some err))
  /\ (exists pc', AddApplication examples.basePartition examples.app1 = Some (pc', None)
                  /\ applications pc' !! "app-1"
                     = Some (Application.SetQueue examples.app1 (Some 2%positive))).
Proof.
  split.
  - destruct (AddApplication_checks_and_links examples.appPartition examples.app1)
      as (Hguard & _).
    apply Hguard. right. right. vm_compute. discriminate.
  - assert (AddApplication examples.basePartition examples.app1
            = Some (examples.appPartition, None)) as Hrun by (vm_compute; reflexivity).
    destruct (AddApplication_checks_and_links examples.basePartition examples.app1)
      as (_ & _ & _ & Hlink).
    destruct (Hlink _ Hrun) as (app1 & pc1 & queue & qi & qi' & Hplace & Hres & _ & _ & _
                                & Happs & _).
    exists examples.appPartition. split; [exact Hrun |].
    rewrite Happs.
    assert (app1 = examples.app1) as ->
      by (vm_compute in Hplace; injection Hplace as <-; reflexivity).
    assert (queue = 2%positive) as -> by (vm_compute in Hres; by inversion Hres).
    apply lookup_insert_eq.
Defined.

(** ** Resource vectors *)

Lemma quantity_Add a b k : quantity (Some (Add a b)) k = quantity a k + quantity b k.
Proof.
  unfold quantity at 1, Add. rewrite lookup_union_with.
  destruct a as [a |], b as [b |]; simpl; rewrite ?lookup_empty;
    repeat (match goal with |- context [?m !! k] => destruct (m !! k) end; simpl);
    first [lia | reflexivity].
Qed.

Lemma quantity_Sub a b k : quantity (Some (Sub a b)) k = quantity a k - quantity b k.
Proof.
  unfold quantity at 1, Sub. rewrite lookup_merge.
  destruct a as [a |], b as [b |]; simpl; rewrite ?lookup_empty;
    repeat (match goal with |- context [?m !! k] => destruct (m !! k) end; simpl);
    first [lia | reflexivity].
Qed.

(** Taking the capacity of a node off the total it was added to gives
    the total back. *)
Lemma SubFrom_totalWith pc capacity :
  Equals (SubFrom (totalWith pc capacity) capacity) (totalPartitionResource pc).
Proof.
  intros k. unfold totalWith, SubFrom, AddTo, Clone.
  destruct (totalPartitionResource pc) as [t |].
  - rewrite quantity_Sub, quantity_Add. lia.
  - destruct capacity as [c |]; [| done]. rewrite quantity_Sub. simpl. lia.
Qed.

(** ** The queues under the operations of the partition *)

Lemma IncAllocatedResource_run (h : heap) q l alloc nodeReported :
  path_to_root h q l ->
  exists h' r, IncAllocatedResource (budget h) h q alloc nodeReported = Some (h', r)
               /\ (forall a, Parent <$> h' !! a = Parent <$> h !! a)
               /\ (forall a, maxResource <$> h' !! a = maxResource <$> h !! a)
               /\ (nodeReported = true -> r = None)
               /\ (r <> None -> h' = h).
Proof.
  intros Hpath.
  assert (length l <= budget h)%nat as Hlen
    by (pose proof (path_length _ _ _ Hpath); unfold budget; lia).
  destruct (IncAllocatedResource_result h alloc q l nodeReported _ Hpath Hlen)
    as [(Hnr & _ & (err & ->)) | (_ & (h' & -> & Hup))].
  - exists h, (Some err). repeat split; try done. congruence.
  - exists h', None. split; [done |]. repeat split; try done.
    + apply (updated_field h Parent (added alloc) l h'); [done | exact Hup].
    + apply (updated_field h maxResource (added alloc) l h'); [done | exact Hup].
Qed.

Lemma decAllocatedResource_run (h : heap) q l alloc :
  path_to_root h q l ->
  exists h' r, decAllocatedResource (budget h) h q alloc = Some (h', r)
               /\ (forall a, Parent <$> h' !! a = Parent <$> h !! a)
               /\ (forall a, maxResource <$> h' !! a = maxResource <$> h !! a).
Proof.
  intros Hpath.
  assert (length l <= budget h)%nat as Hlen
    by (pose proof (path_length _ _ _ Hpath); unfold budget; lia).
  destruct (decAllocatedResource_result h alloc q l _ Hpath Hlen)
    as [(_ & _ & (err & ->)) | (_ & (h' & -> & Hup))].
  - by exists h, (Some err).
  - exists h', None. split; [done |]. split.
    + apply (updated_field h Parent (subtracted alloc) l h'); [done | exact Hup].
    + apply (updated_field h maxResource (subtracted alloc) l h'); [done | exact Hup].
Qed.

Lemma setMaxResource_run (h : heap) q qi max :
  h !! q = Some qi -> Parent qi = None ->
  exists h', setMaxResource h q max = Some h'
             /\ (forall a, Parent <$> h' !! a = Parent <$> h !! a)
             /\ (maxResource <$> h' !! q) = Some (Clone max).
Proof.
  intros Hq Hp. rewrite (setMaxResource_result h q qi max Hq).
  rewrite bool_decide_eq_false_2 by (by rewrite Hp; intros []).
  eexists. split; [done |]. split; [| by rewrite lookup_insert_eq].
  apply (updated_field h Parent (set_maxResource (Clone max)) [q]); [done |].
  by apply insert_updated.
Qed.

(** ** The partition under [addAllocation] *)

Lemma wellFormed_step pc pc' :
  wellFormed pc -> root pc' = root pc ->
  (forall a, Parent <$> queues pc' !! a = Parent <$> queues pc !! a) ->
  (forall appID app', applications pc' !! appID = Some app' ->
     exists app, applications pc !! appID = Some app
                 /\ Application.GetQueue app' = Application.GetQueue app) ->
  wellFormed pc'.
Proof.
  intros [(qi & Hroot & Hp) Happs] Hr Hparents Hsame. split.
  - pose proof (Hparents (root pc)) as Heq. rewrite Hr. rewrite Hroot in Heq.
    destruct (queues pc' !! root pc) as [qi' |]; simplify_eq/=.
    exists qi'. split; [done | congruence].
  - intros appID app' Happ'.
    destruct (Hsame _ _ Happ') as (app & Happ & Hq).
    destruct (Happs _ _ Happ) as (q & l & Hqueue & Hpath).
    exists q, l. split; [congruence |]. by eapply path_parents.
Qed.

Lemma recovered_queue app ask alloc :
  Application.GetQueue
    (Application.AddAllocation (Application.RecoverAllocationAsk app ask) alloc)
  = Application.GetQueue app.
Proof. by destruct ask. Qed.

(** The shape of a partition after [addAllocation] has returned nil. *)
Lemma addAllocation_ok pc alloc pc' :
  addAllocation pc alloc = Some (pc', None) ->
  exists node app q h',
    nodes pc !! Allocation.NodeID alloc = Some node
    /\ applications pc !! Allocation.ApplicationID alloc = Some app
    /\ Application.GetQueue app = Some q
    /\ IncAllocatedResource (budget (queues pc)) (queues pc) q
         (Allocation.AllocatedResource alloc) true = Some (h', None)
    /\ pc' = set_allocations (<[Allocation.UUID alloc := alloc]> (allocations pc))
               (set_applications
                  (<[Allocation.ApplicationID alloc :=
                       Application.AddAllocation
                         (Application.RecoverAllocationAsk app (Allocation.Ask alloc))
                         alloc]> (applications pc))
                  (set_nodes (<[Allocation.NodeID alloc := Node.AddAllocation node alloc]>
                                (nodes pc))
                     (set_queues h' pc))).
Proof.
  unfold addAllocation. intros Hrun.
  destruct (isStopped pc); [done |].
  case_bool_decide; [done |].
  destruct (nodes pc !! Allocation.NodeID alloc) as [node |]; [| done].
  destruct (applications pc !! Allocation.ApplicationID alloc) as [app |]; [| done].
  destruct (negb (Node.IsSchedulable node)); [done |].
  destruct (Application.GetQueue app) as [q |] eqn:Hq; [| done].
  destruct (IncAllocatedResource _ _ _ _ _) as [[h' [err |]] |] eqn:Hinc; [done | | done].
  simplify_eq. by exists node, app, q, h'.
Qed.

Lemma set_queues_id pc : set_queues (queues pc) pc = pc.
Proof. by destruct pc. Qed.

(** On a well-formed partition [addAllocation] returns; the partition
    stays well-formed, an error leaves it as it was, and the nodes keep
    their keys and capacities. *)
Lemma addAllocation_run pc alloc :
  wellFormed pc ->
  exists pc' r, addAllocation pc alloc = Some (pc', r)
    /\ wellFormed pc' /\ root pc' = root pc
    /\ totalPartitionResource pc' = totalPartitionResource pc
    /\ (forall a, maxResource <$> queues pc' !! a = maxResource <$> queues pc !! a)
    /\ (r <> None -> pc' = pc)
    /\ (forall nid n, nodes pc !! nid = Some n ->
          exists n', nodes pc' !! nid = Some n'
                     /\ Node.GetCapacity n' = Node.GetCapacity n)
    /\ (forall nid, nodes pc !! nid = None -> nodes pc' !! nid = None).
Proof.
  intros Hwf.
  assert (forall e : error, exists pc' (r : option error), Some (pc, Some e) = Some (pc', r)
    /\ wellFormed pc' /\ root pc' = root pc
    /\ totalPartitionResource pc' = totalPartitionResource pc
    /\ (forall a, maxResource <$> queues pc' !! a = maxResource <$> queues pc !! a)
    /\ (r <> None -> pc' = pc)
    /\ (forall nid n, nodes pc !! nid = Some n ->
          exists n', nodes pc' !! nid = Some n'
                     /\ Node.GetCapacity n' = Node.GetCapacity n)
    /\ (forall nid, nodes pc !! nid = None -> nodes pc' !! nid = None)) as Hfail.
  { intros e. exists pc, (Some e). split; [done |]. split; [exact Hwf |].
    repeat split; eauto. }
  unfold addAllocation.
  destruct (isStopped pc); [apply Hfail |].
  case_bool_decide; [apply Hfail |].
  destruct (nodes pc !! Allocation.NodeID alloc) as [node |] eqn:Hnode; [| apply Hfail].
  destruct (applications pc !! Allocation.ApplicationID alloc) as [app |] eqn:Happ;
    [| apply Hfail].
  destruct (negb (Node.IsSchedulable node)); [apply Hfail |].
  destruct (proj2 Hwf _ _ Happ) as (q & l & Hq & Hpath). rewrite Hq.
  destruct (IncAllocatedResource_run _ _ _ (Allocation.AllocatedResource alloc) true Hpath)
    as (h' & r & -> & Hparents & Hmax & Hnil & _).
  rewrite (Hnil eq_refl). eexists _, None. split; [done |]. repeat split; simpl; try done.
  - destruct Hwf as [(qi & Hroot & Hp) _]. specialize (Hparents (root pc)).
    rewrite Hroot in Hparents. destruct (h' !! root pc) as [qi' |]; simplify_eq/=.
    exists qi'. split; [done | congruence].
  - intros appID app' Happ'. simpl in Happ'.
    apply lookup_insert_Some in Happ' as [[<- <-] | [Hne Happ']].
    + exists q, l. rewrite recovered_queue. split; [done |]. by eapply path_parents.
    + destruct (proj2 Hwf _ _ Happ') as (q' & l' & Hq' & Hpath').
      exists q', l'. split; [done |]. by eapply path_parents.
  - intros nid n Hn. destruct (decide (Allocation.NodeID alloc = nid)) as [<- | Hne].
    + rewrite lookup_insert_eq. eexists. split; [done |].
      assert (n = node) as -> by congruence.
      unfold Node.AddAllocation. by destruct (Node.allocations node !! _).
    + rewrite lookup_insert_ne by done. eauto.
  - intros nid Hn. rewrite lookup_insert_ne; [done |]. congruence.
Qed.

(** ** The partition under the removal of a node *)

Lemma held_after_release pc alloc app h' a :
  applications pc !! Allocation.ApplicationID alloc = Some app ->
  Allocation.UUID a <> Allocation.UUID alloc ->
  held pc a ->
  held (set_queues h'
          (set_applications
             (<[Allocation.ApplicationID alloc :=
                  (Application.RemoveAllocation app (Allocation.UUID alloc)).1]>
                (applications pc)) pc)) a.
Proof.
  intros Happ Hne (app0 & Happ0 & Hheld). unfold held. simpl.
  destruct (decide (Allocation.ApplicationID alloc = Allocation.ApplicationID a)) as [Heq | Hneq].
  - rewrite <- Heq, lookup_insert_eq. eexists. split; [done |]. simpl.
    rewrite lookup_delete_ne by done. rewrite <- Heq in Happ0. by simplify_eq.
  - rewrite lookup_insert_ne by done. eauto.
Qed.

(** The loop of [removeNodeAllocations] returns on a well-formed
    partition, which stays well-formed and keeps its nodes and total;
    when the allocations have different UUIDs and their applications
    hold them, all of them are released, in their order. *)
Lemma releaseAllocations_run allocs :
  forall pc released, wellFormed pc ->
  exists pc' out, releaseAllocations pc allocs released = Some (pc', out)
    /\ wellFormed pc' /\ root pc' = root pc
    /\ totalPartitionResource pc' = totalPartitionResource pc
    /\ nodes pc' = nodes pc
    /\ (NoDup (Allocation.UUID <$> allocs) -> (forall a, a ∈ allocs -> held pc a) ->
        out = (released ++ allocs)%list).
Proof.
  induction allocs as [| alloc rest IH]; intros pc released Hwf; cbn.
  - exists pc, released. repeat split; try done; try apply Hwf.
    intros _ _. by rewrite app_nil_r.
  - destruct (applications pc !! Allocation.ApplicationID alloc) as [app |] eqn:Happ.
    + assert (wellFormed (set_applications
                (<[Allocation.ApplicationID alloc :=
                     (Application.RemoveAllocation app (Allocation.UUID alloc)).1]>
                   (applications pc)) pc)) as Hwf1.
      { apply (wellFormed_step pc); [done | done | done |].
        intros appID app' Happ'. simpl in Happ'.
        apply lookup_insert_Some in Happ' as [[<- <-] | [Hne Happ']]; eauto. }
      destruct (Application.allocations app !! Allocation.UUID alloc) as [removed |] eqn:Hrem.
      * destruct (proj2 Hwf _ _ Happ) as (q & l & Hq & Hpath).
        destruct app as [aid qname usr que reqs held0 res]. cbn in Hq, Hrem. subst que. cbn.
        destruct (decAllocatedResource_run (queues pc) q l
                    (Allocation.AllocatedResource alloc) Hpath)
          as (h' & r & Hdec & Hparents & _).
        cbn. rewrite Hdec.
        match goal with |- context [releaseAllocations ?p rest ?rel] =>
          assert (wellFormed p) as Hwf2;
            [| destruct (IH p rel Hwf2) as (pc' & out & Hrun & Hwf' & Hr & Ht & Hn & Hout)]
        end.
        { apply (wellFormed_step pc); [done | done | exact Hparents |].
          intros appID app' Happ'. cbn in Happ'.
          apply lookup_insert_Some in Happ' as [[<- <-] | [Hne Happ']]; [| eauto].
          eexists. split; [done |]. done. }
        exists pc', out. split; [done |]. repeat split; try done; try apply Hwf'.
        intros Hnd Hheld. apply NoDup_cons in Hnd as [Hnotin Hnd].
        rewrite Hout, <- app_assoc; [done | done |].
        intros a Ha. apply (held_after_release pc alloc _ h' a Happ); [| apply Hheld; by right].
        intros Heq. apply Hnotin. rewrite <- Heq. apply list_elem_of_fmap. eauto.
      * cbn.
        destruct (IH _ released Hwf1) as (pc' & out & Hrun & Hwf' & Hr & Ht & Hn & Hout).
        exists pc', out. split; [done |]. repeat split; try done; try apply Hwf'.
        intros _ Hheld. destruct (Hheld alloc) as (app0 & Happ0 & [x Hx]); [by left |].
        simplify_eq.
    + destruct (IH pc released Hwf) as (pc' & out & Hrun & Hwf' & Hr & Ht & Hn & Hout).
      exists pc', out. split; [done |]. repeat split; try done; try apply Hwf'.
      intros _ Hheld. destruct (Hheld alloc) as (app0 & Happ0 & _); [by left |].
      simplify_eq.
Qed.

Lemma unReserveCount_frame pc appID asks :
  let pc' := unReserveCount pc appID asks in
  nodes pc' = nodes pc /\ totalPartitionResource pc' = totalPartitionResource pc
  /\ root pc' = root pc /\ queues pc' = queues pc.
Proof.
  unfold unReserveCount. destruct (reservedApps pc !! appID); [| done].
  by case_bool_decide.
Qed.

Lemma unReserveCounts_run keys :
  forall pc asks, length keys = length asks ->
  exists pc', unReserveCounts pc keys asks = Some pc'
    /\ nodes pc' = nodes pc /\ totalPartitionResource pc' = totalPartitionResource pc
    /\ root pc' = root pc /\ queues pc' = queues pc.
Proof.
  induction keys as [| k keys IH]; intros pc asks Hlen; simpl.
  - by exists pc.
  - destruct asks as [| n asks]; [done |]. simpl in Hlen.
    destruct (IH (unReserveCount pc k n) asks ltac:(lia)) as (pc' & -> & Hn & Ht & Hr & Hq).
    destruct (unReserveCount_frame pc k n) as (Hn' & Ht' & Hr' & Hq').
    exists pc'. split; [done |]. repeat split; congruence.
Qed.

(** [removeNodeInternal] returns on a well-formed partition that holds
    the node: the node is gone, its capacity is off the total, and when
    its allocations have different UUIDs and are held by their
    applications, they are all released. *)
Lemma removeNodeInternal_run pc nid node :
  wellFormed pc -> nodes pc !! nid = Some node ->
  exists pc' released, removeNodeInternal pc nid = Some (pc', released)
    /\ nodes pc' = delete nid (nodes pc)
    /\ totalPartitionResource pc'
       = SubFrom (totalPartitionResource pc) (Node.GetCapacity node)
    /\ (NoDup (Allocation.UUID <$> Node.GetAllAllocations node) ->
        (forall a, a ∈ Node.GetAllAllocations node -> held pc a) ->
        released = Node.GetAllAllocations node).
Proof.
  intros Hwf Hnode. unfold removeNodeInternal, removeNodeAllocations. rewrite Hnode.
  assert (wellFormed (set_nodes (delete nid (nodes pc)) pc)) as Hwf1.
  { apply (wellFormed_step pc); [done | done | done |]. intros appID app' Happ'. eauto. }
  destruct (releaseAllocations_run (Node.GetAllAllocations node) _ [] Hwf1)
    as (pc2 & released & -> & Hwf2 & Hr2 & Ht2 & Hn2 & Hout).
  destruct Hwf2 as [(qi & Hroot & Hp) _].
  destruct (setMaxResource_run (queues pc2) (root pc2) qi
              (SubFrom (totalPartitionResource pc2) (Node.GetCapacity node)) Hroot Hp)
    as (h' & Hset & _).
  cbn. rewrite Hset.
  match goal with |- context [unReserveCounts ?p ?keys ?asks] =>
    destruct (unReserveCounts_run keys p asks) as (pc5 & -> & Hn5 & Ht5 & _)
  end.
  { by rewrite !length_fmap. }
  exists pc5, released. split; [done |]. cbn in *. repeat split.
  - congruence.
  - congruence.
  - intros Hnd Hheld. by apply Hout.
Qed.

(** The loop of [AddNode] returns on a well-formed partition that holds
    the node: with nil after a replay of all the allocations, or with an
    error, the node removed and its capacity off the total. *)
Lemma addExisting_run allocs :
  forall pc nid n0, wellFormed pc -> nodes pc !! nid = Some n0 ->
  exists pc' r, addExisting pc nid allocs = Some (pc', r)
    /\ match r with
       | None =>
         replayed pc allocs pc' /\ wellFormed pc' /\ root pc' = root pc
         /\ totalPartitionResource pc' = totalPartitionResource pc
         /\ (forall a, maxResource <$> queues pc' !! a = maxResource <$> queues pc !! a)
         /\ (exists n', nodes pc' !! nid = Some n'
                        /\ Node.GetCapacity n' = Node.GetCapacity n0)
       | Some _ =>
         nodes pc' !! nid = None
         /\ totalPartitionResource pc'
            = SubFrom (totalPartitionResource pc) (Node.GetCapacity n0)
       end.
Proof.
  induction allocs as [| alloc rest IH]; intros pc nid n0 Hwf Hnode; cbn.
  - exists pc, None. split; [done |]. repeat split; try done; try apply Hwf.
    + constructor.
    + eauto.
  - destruct (addAllocation_run pc alloc Hwf)
      as (pc1 & r1 & Hrun & Hwf1 & Hr1 & Ht1 & Hmax1 & Herr & Hkeep & _).
    rewrite Hrun. destruct r1 as [err |].
    + rewrite (Herr ltac:(done)) in *.
      destruct (removeNodeInternal_run pc nid n0 Hwf Hnode)
        as (pc2 & released & -> & Hn2 & Ht2 & _).
      exists pc2, (Some err). split; [done |]. split; [| done].
      rewrite Hn2. apply lookup_delete_eq.
    + destruct (Hkeep _ _ Hnode) as (n1 & Hnode1 & Hcap1).
      destruct (IH pc1 nid n1 Hwf1 Hnode1) as (pc' & r & -> & Hres).
      exists pc', r. split; [done |]. destruct r as [err |].
      * destruct Hres as [Hgone Ht]. split; [done |]. congruence.
      * destruct Hres as (Hrep & Hwf' & Hr' & Ht' & Hmax' & (n' & Hn' & Hcap')).
        split; [by econstructor |]. split; [done |].
        split; [congruence |]. split; [congruence |].
        split; [intros a; by rewrite Hmax', Hmax1 |].
        exists n'. split; [done | congruence].
Qed.

(** ** Adding and removing a node *)

(** The partition in which [AddNode] replays the allocations: the total
    with the capacity of the node, the max of the root set to it, and the
    node among the nodes. *)
Lemma AddNode_start pc n :
  wellFormed pc ->
  exists h1,
    setMaxResource (queues pc) (root pc) (totalWith pc (Node.GetCapacity n)) = Some h1
    /\ (maxResource <$> h1 !! root pc) = Some (Clone (totalWith pc (Node.GetCapacity n)))
    /\ wellFormed (set_nodes (<[Node.NodeID n := n]> (nodes pc))
                     (set_queues h1
                        (set_totalPartitionResource
                           (totalWith pc (Node.GetCapacity n)) pc))).
Proof.
  intros Hwf. destruct Hwf as [(qi & Hroot & Hp) Happs].
  destruct (setMaxResource_run (queues pc) (root pc) qi
              (totalWith pc (Node.GetCapacity n)) Hroot Hp) as (h1 & Hset & Hparents & Hmax).
  exists h1. split; [done |]. split; [done |].
  apply (wellFormed_step pc); [by split; eauto | done | exact Hparents |].
  intros appID app' Happ'. eauto.
Qed.

(** C3.  On a well-formed partition [AddNode] returns.  It returns an
    error and leaves the partition (its nodes and its total) as it was
    when the partition is Draining or Stopped or holds a node with the
    same ID.  When it returns nil, the capacity of the node has been
    added to the total, the max resource of the root is the new total,
    the node is among the nodes, and the existing allocations have been
    replayed in turn by [addAllocation], which adds to the queues with the
    node-reported flag.  When the replay fails, [AddNode] returns the
    error, the node is no more among the nodes and the total is the
    resource it was before the call. *)
Theorem AddNode_adds_or_rolls_back (pc : PartitionContext) (n : Node.t)
    (existingAllocations : list Allocation.t) :
  wellFormed pc ->
  (isDraining pc = true \/ isStopped pc = true \/ nodes pc !! Node.NodeID n <> None ->
     exists err, AddNode pc (Some n) existingAllocations = Some (pc, Some err))
  /\ (exists pc' r, AddNode pc (Some n) existingAllocations = Some (pc', r))
  /\ (forall pc', AddNode pc (Some n) existingAllocations = Some (pc', None) ->
        totalPartitionResource pc' = totalWith pc (Node.GetCapacity n)
        /\ (maxResource <$> queues pc' !! root pc') = Some (Clone (totalPartitionResource pc'))
        /\ is_Some (nodes pc' !! Node.NodeID n)
        /\ exists h1,
             setMaxResource (queues pc) (root pc) (totalWith pc (Node.GetCapacity n))
             = Some h1
             /\ replayed (set_nodes (<[Node.NodeID n := n]> (nodes pc))
                            (set_queues h1
                               (set_totalPartitionResource
                                  (totalWith pc (Node.GetCapacity n)) pc)))
                         existingAllocations pc')
  /\ (forall pa alloc pb, addAllocation pa alloc = Some (pb, None) ->
        exists app q,
          applications pa !! Allocation.ApplicationID alloc = Some app
          /\ Application.GetQueue app = Some q
          /\ IncAllocatedResource (budget (queues pa)) (queues pa) q
               (Allocation.AllocatedResource alloc) true = Some (queues pb, None))
  /\ (forall pc' err,
        isDraining pc = false -> isStopped pc = false -> nodes pc !! Node.NodeID n = None ->
        AddNode pc (Some n) existingAllocations = Some (pc', Some err) ->
        nodes pc' !! Node.NodeID n = None
        /\ Equals (totalPartitionResource pc') (totalPartitionResource pc)).
Proof.
  intros Hwf.
  destruct (AddNode_start pc n Hwf) as (h1 & Hset & Hmax1 & Hwf2).
  set (pc2 := set_nodes (<[Node.NodeID n := n]> (nodes pc))
                (set_queues h1
                   (set_totalPartitionResource (totalWith pc (Node.GetCapacity n)) pc)))
    in *.
  assert (nodes pc2 !! Node.NodeID n = Some n) as Hnode2 by apply lookup_insert_eq.
  destruct (addExisting_run existingAllocations pc2 (Node.NodeID n) n Hwf2 Hnode2)
    as (pc3 & r & Hrun & Hres).
  assert (isDraining pc = false -> isStopped pc = false ->
          nodes pc !! Node.NodeID n = None ->
          AddNode pc (Some n) existingAllocations = Some (pc3, r)) as Hadd.
  { intros Hd Hs Hnew. unfold AddNode. rewrite Hd, Hs. cbn [orb].
    rewrite bool_decide_eq_false_2 by (by rewrite Hnew; intros []).
    cbn. fold (totalWith pc (Node.GetCapacity n)). rewrite Hset. exact Hrun. }
  assert (isDraining pc = true \/ isStopped pc = true \/ nodes pc !! Node.NodeID n <> None ->
    exists err, AddNode pc (Some n) existingAllocations = Some (pc, Some err)) as Hguard.
  { unfold AddNode. intros [Hd | [Hs | Hdup]].
    - rewrite Hd. eauto.
    - rewrite Hs, orb_true_r. eauto.
    - destruct (isDraining pc || isStopped pc); [eauto |].
      rewrite bool_decide_eq_true_2 by done. eauto. }
  assert (isDraining pc = true \/ isStopped pc = true \/ nodes pc !! Node.NodeID n <> None
          \/ (isDraining pc = false /\ isStopped pc = false
              /\ nodes pc !! Node.NodeID n = None)) as Hcases.
  { destruct (isDraining pc); [by left |]. destruct (isStopped pc); [by right; left |].
    destruct (nodes pc !! Node.NodeID n); [right; right; by left |].
    by right; right; right. }
  split; [exact Hguard |]. split; [| split; [| split]].
  - destruct Hcases as [H | [H | [H | (Hd & Hs & Hnew)]]]; eauto;
      destruct Hguard as [err Herr]; eauto.
  - intros pc' Hok.
    destruct Hcases as [H | [H | [H | (Hd & Hs & Hnew)]]];
      try (destruct Hguard as [err Herr]; [by eauto | congruence]).
    rewrite (Hadd Hd Hs Hnew) in Hok. simplify_eq.
    destruct Hres as (Hrep & _ & Hr & Ht & Hmax & (n' & Hn' & _)).
    split; [by rewrite Ht |]. split.
    + rewrite Hr, Hmax, Ht. exact Hmax1.
    + split; [eauto |]. exists h1. by split.
  - intros pa alloc pb Hok.
    destruct (addAllocation_ok _ _ _ Hok) as (node & app & q & h' & _ & Happ & Hq & Hinc & ->).
    by exists app, q.
  - intros pc' err Hd Hs Hnew Hfail.
    rewrite (Hadd Hd Hs Hnew) in Hfail. simplify_eq.
    destruct Hres as [Hgone Ht]. split; [done |].
    rewrite Ht. apply SubFrom_totalWith.
Qed.

Lemma appPartition_wellFormed : wellFormed examples.appPartition.
Proof.
  split.
  - exists examples.rootQueue. split; reflexivity.
  - intros appID app Happ. cbn in Happ.
    apply lookup_singleton_Some in Happ as [_ <-].
    exists 2%positive, [2%positive; 1%positive]. split; [reflexivity |].
    eapply path_step; [reflexivity | reflexivity |].
    eapply path_root; reflexivity.
Qed.

Lemma AddNode_adds_or_rolls_back_witness :
  (exists pc', AddNode examples.appPartition (Some examples.node1) [examples.alloc1]
               = Some (pc', None)
               /\ totalPartitionResource pc' = Some (examples.memory 100))
  /\ (exists pc' err,
        AddNode examples.appPartition (Some examples.node1) [examples.allocNoUUID]
        = Some (pc', Some err)
        /\ nodes pc' !! "node-1" = None).
Proof.
  split.
  - destruct (AddNode_adds_or_rolls_back examples.appPartition examples.node1
                [examples.alloc1] appPartition_wellFormed) as (_ & _ & Hok & _).
    assert (exists pc', AddNode examples.appPartition (Some examples.node1) [examples.alloc1]
                        = Some (pc', None)) as [pc' Hrun]
      by (eexists; vm_compute; reflexivity).
    exists pc'. split; [exact Hrun |].
    destruct (Hok pc' Hrun) as (Htotal & _). rewrite Htotal. reflexivity.
  - destruct (AddNode_adds_or_rolls_back examples.appPartition examples.node1
                [examples.allocNoUUID] appPartition_wellFormed) as (_ & _ & _ & _ & Hfail).
    assert (exists pc' err,
              AddNode examples.appPartition (Some examples.node1) [examples.allocNoUUID]
              = Some (pc', Some err)) as (pc' & err & Hrun)
      by (eexists _, _; vm_compute; reflexivity).
    exists pc', err. split; [exact Hrun |].
    apply (Hfail pc' err); [reflexivity | reflexivity | reflexivity | exact Hrun].
Defined.

(** After [addAllocation] has returned nil, the application holds the
    allocation, and keeps those it held. *)
Lemma addAllocation_holds pc alloc pc' :
  addAllocation pc alloc = Some (pc', None) -> held pc' alloc.
Proof.
  intros Hok.
  destruct (addAllocation_ok _ _ _ Hok) as (node & app & q & h' & _ & Happ & _ & _ & ->).
  unfold held. cbn. rewrite lookup_insert_eq. eexists. split; [done |].
  cbn. rewrite lookup_insert_eq. eauto.
Qed.

Lemma addAllocation_keeps_held pc alloc pc' a :
  addAllocation pc alloc = Some (pc', None) -> held pc a -> held pc' a.
Proof.
  intros Hok (app0 & Happ0 & Hheld).
  destruct (addAllocation_ok _ _ _ Hok) as (node & app & q & h' & _ & Happ & _ & _ & ->).
  unfold held. cbn.
  destruct (decide (Allocation.ApplicationID alloc = Allocation.ApplicationID a)) as [Heq | Hne].
  - rewrite <- Heq, lookup_insert_eq. eexists. split; [done |].
    rewrite <- Heq in Happ0. simplify_eq. cbn.
    destruct (decide (Allocation.UUID alloc = Allocation.UUID a)) as [-> | Hne].
    + rewrite lookup_insert_eq. eauto.
    + rewrite lookup_insert_ne by done. by destruct (Allocation.Ask alloc).
  - rewrite lookup_insert_ne by done. eauto.
Qed.

Lemma replayed_held pc allocs pc' :
  replayed pc allocs pc' ->
  (forall a, held pc a -> held pc' a) /\ (forall a, a ∈ allocs -> held pc' a).
Proof.
  induction 1 as [pc | pc alloc pc1 rest pc' Hok Hrest [IHkeep IHheld]].
  - split; [done |]. intros a Ha. by apply elem_of_nil in Ha.
  - split.
    + intros a Ha. eapply IHkeep, addAllocation_keeps_held; eauto.
    + intros a Ha. apply elem_of_cons in Ha as [-> | Ha]; [| by apply IHheld].
      eapply IHkeep, addAllocation_holds; eauto.
Qed.

(** After a replay of allocations of one node with different UUIDs, none
    of which the node had, the node has them on top of those it had. *)
Lemma replayed_node pc allocs pc' :
  replayed pc allocs pc' ->
  forall nid node,
    nodes pc !! nid = Some node ->
    (forall a, a ∈ allocs -> Allocation.NodeID a = nid) ->
    NoDup (Allocation.UUID <$> allocs) ->
    (forall a, a ∈ allocs -> Node.allocations node !! Allocation.UUID a = None) ->
    exists node', nodes pc' !! nid = Some node'
                  /\ Node.GetCapacity node' = Node.GetCapacity node
                  /\ Node.GetAllAllocations node'
                     ≡ₚ (allocs ++ Node.GetAllAllocations node)%list.
Proof.
  induction 1 as [pc | pc alloc pc1 rest pc' Hok Hrest IH];
    intros nid node Hnode Hnid Hnd Hfresh.
  - exists node. by repeat split.
  - destruct (addAllocation_ok _ _ _ Hok) as (node0 & app & q & h' & Hnode0 & _ & _ & _ & ->).
    rewrite (Hnid alloc ltac:(by left)) in Hnode0.
    assert (node0 = node) as -> by congruence.
    apply NoDup_cons in Hnd as [Hnotin Hnd].
    pose proof (Hfresh alloc ltac:(by left)) as Hnew.
    destruct (IH nid (Node.AddAllocation node alloc)) as (node' & Hnode' & Hcap & Hperm).
    + cbn. rewrite (Hnid alloc ltac:(by left)). apply lookup_insert_eq.
    + intros a Ha. apply Hnid. by right.
    + done.
    + intros a Ha. unfold Node.AddAllocation. rewrite Hnew. cbn.
      rewrite lookup_insert_ne; [apply Hfresh; by right |].
      intros Heq. apply Hnotin. rewrite Heq. apply list_elem_of_fmap. eauto.
    + exists node'. split; [done |]. split.
      * rewrite Hcap. unfold Node.AddAllocation. by rewrite Hnew.
      * rewrite Hperm. unfold Node.GetAllAllocations, Node.AddAllocation. rewrite Hnew. cbn.
        rewrite map_to_list_insert by done. cbn.
        by rewrite Permutation_middle.
Qed.

(** The partition after [AddNode] has returned nil. *)
Lemma AddNode_ok pc n allocs pc1 :
  wellFormed pc -> AddNode pc (Some n) allocs = Some (pc1, None) ->
  exists h1,
    replayed (set_nodes (<[Node.NodeID n := n]> (nodes pc))
                (set_queues h1
                   (set_totalPartitionResource (totalWith pc (Node.GetCapacity n)) pc)))
             allocs pc1
    /\ wellFormed pc1
    /\ totalPartitionResource pc1 = totalWith pc (Node.GetCapacity n)
    /\ exists n', nodes pc1 !! Node.NodeID n = Some n'
                  /\ Node.GetCapacity n' = Node.GetCapacity n.
Proof.
  intros Hwf Hok.
  destruct (AddNode_start pc n Hwf) as (h1 & Hset & _ & Hwf2).
  unfold AddNode in Hok.
  destruct (isDraining pc || isStopped pc); [done |].
  case_bool_decide; [done |].
  cbn in Hok. fold (totalWith pc (Node.GetCapacity n)) in Hok. rewrite Hset in Hok.
  match type of Hok with addExisting ?p _ _ = _ =>
    destruct (addExisting_run allocs p (Node.NodeID n) n Hwf2 ltac:(apply lookup_insert_eq))
      as (pc3 & r & Hrun & Hres)
  end.
  rewrite Hrun in Hok. simplify_eq.
  destruct Hres as (Hrep & Hwf1 & _ & Ht & _ & Hnode).
  exists h1. split; [exact Hrep |]. split; [exact Hwf1 |]. split; [exact Ht | exact Hnode].
Qed.

(** C5, as the code has it.  After [AddNode] has returned nil on a
    well-formed partition, [removeNode] of the node returns, and the total
    of the partition is the resource it was before [AddNode]; when the
    node came without allocations of its own and the allocations it
    reported have different UUIDs and all name the node, the released
    allocations are the reported ones, as a multiset. *)
Theorem AddNode_removeNode_roundtrip (pc : PartitionContext) (n : Node.t)
    (allocs : list Allocation.t) (pc1 : PartitionContext) :
  wellFormed pc ->
  AddNode pc (Some n) allocs = Some (pc1, None) ->
  exists pc2 released,
    removeNode pc1 (Node.NodeID n) = Some (pc2, released)
    /\ Equals (totalPartitionResource pc2) (totalPartitionResource pc)
    /\ (Node.allocations n = ∅ ->
        NoDup (Allocation.UUID <$> allocs) ->
        (forall a, a ∈ allocs -> Allocation.NodeID a = Node.NodeID n) ->
        released ≡ₚ allocs).
Proof.
  intros Hwf Hok.
  destruct (AddNode_ok pc n allocs pc1 Hwf Hok)
    as (h1 & Hrep & Hwf1 & Htotal & (n' & Hnode' & Hcap)).
  destruct (removeNodeInternal_run pc1 (Node.NodeID n) n' Hwf1 Hnode')
    as (pc2 & released & Hrun & _ & Ht2 & Hout).
  exists pc2, released. split; [exact Hrun |]. split.
  - rewrite Ht2, Htotal, Hcap. apply SubFrom_totalWith.
  - intros Hempty Hnd Hnid.
    destruct (replayed_node _ _ _ Hrep (Node.NodeID n) n) as (n2 & Hn2 & _ & Hperm);
      [apply lookup_insert_eq | done | done | |].
    { intros a _. by rewrite Hempty, lookup_empty. }
    assert (n2 = n') as -> by congruence.
    unfold Node.GetAllAllocations at 2 in Hperm.
    rewrite Hempty, map_to_list_empty, app_nil_r in Hperm.
    rewrite Hout; [done | |].
    + rewrite Hperm. done.
    + intros a Ha. apply (replayed_held _ _ _ Hrep). by rewrite <- Hperm.
Qed.

Lemma AddNode_removeNode_roundtrip_witness :
  exists pc1 pc2 released,
    AddNode examples.appPartition (Some examples.node1) [examples.alloc1; examples.alloc2]
    = Some (pc1, None)
    /\ removeNode pc1 "node-1" = Some (pc2, released)
    /\ Equals (totalPartitionResource pc2) None
    /\ released ≡ₚ [examples.alloc1; examples.alloc2].
Proof.
  assert (exists pc1, AddNode examples.appPartition (Some examples.node1)
                        [examples.alloc1; examples.alloc2] = Some (pc1, None))
    as [pc1 Hadd] by (eexists; vm_compute; reflexivity).
  destruct (AddNode_removeNode_roundtrip examples.appPartition examples.node1
              [examples.alloc1; examples.alloc2] pc1 appPartition_wellFormed Hadd)
    as (pc2 & released & Hrun & Htotal & Hperm).
  exists pc1, pc2, released. split; [exact Hadd |]. split; [exact Hrun |].
  split; [exact Htotal |]. apply Hperm.
  - reflexivity.
  - cbn. apply NoDup_cons. split; [| apply NoDup_singleton].
    intros Hin%list_elem_of_singleton. discriminate.
  - intros a Ha. apply elem_of_cons in Ha as [-> | Ha]; [reflexivity |].
    apply list_elem_of_singleton in Ha as ->. reflexivity.
Defined.

(** C5, as stated, does not hold: of two reported allocations with the
    same UUID the node keeps one, and [removeNode] returns one; and an
    allocation that names another node of the partition goes to that
    node, and [removeNode] does not return it. *)
Lemma AddNode_removeNode_counterexample :
  (exists pc1 pc2,
     AddNode examples.appPartition (Some examples.node1)
       [examples.alloc1; examples.alloc1Again] = Some (pc1, None)
     /\ removeNode pc1 "node-1" = Some (pc2, [examples.alloc1])
     /\ ~ [examples.alloc1] ≡ₚ [examples.alloc1; examples.alloc1Again])
  /\ (exists pc1 pc2,
        AddNode examples.nodePartition (Some examples.node2) [examples.alloc1]
        = Some (pc1, None)
        /\ removeNode pc1 "node-2" = Some (pc2, [])
        /\ ~ [] ≡ₚ [examples.alloc1]).
Proof.
  split.
  - eexists _, _. split; [vm_compute; reflexivity |]. split; [vm_compute; reflexivity |].
    intros Hperm. apply Permutation_length in Hperm. discriminate.
  - eexists _, _. split; [vm_compute; reflexivity |]. split; [vm_compute; reflexivity |].
    intros Hperm. apply Permutation_length in Hperm. discriminate.
Qed.

(** ** The example partitions are states of the code *)

Example appPartition_reached :
  AddApplication examples.basePartition examples.app1
  = Some (examples.appPartition, None).
Proof. vm_compute. reflexivity. Qed.

Example nodePartition_reached :
  AddNode examples.appPartition (Some examples.node1) []
  = Some (examples.nodePartition, None).
Proof. vm_compute. reflexivity. Qed.

(** [FitIn] decides the relation of the specification. *)
Lemma FitIn_spec larger smaller :
  FitIn larger smaller = true <-> forall k, quantity smaller k <= quantity larger k.
Proof.
  unfold FitIn. rewrite forallb_forall. split.
  - intros Hall k.
    destruct (decide (k ∈ dom (deref larger) ∪ dom (deref smaller))) as [Hin | Hout].
    + apply Z.leb_le, Hall, list_elem_of_In, elem_of_elements, Hin.
    + apply not_elem_of_union in Hout as [Hl Hs].
      apply not_elem_of_dom in Hl, Hs.
      destruct larger, smaller; simpl in *; rewrite ?Hl, ?Hs; simpl; lia.
  - intros Hall k _. apply Z.leb_le, Hall.
Qed.
